(** * PowerCore: feed scaling and wire tension control

    A shallow embedding of [klippy/extras/powercore.py].

    Conventions of the embedding.
    - A Python [float] is an exact rational [Q]; [math.ceil], [round(x)] and
      [round(x, 3)] are the exact ceiling and round-half-even functions.  NaN,
      infinities and binary rounding are outside the model.
    - A Python exception is a constructor of [exn]; a call that can raise
      returns a [result].
    - An object attribute that is created after [__init__] is an [option]
      field: [None] means that the attribute does not exist yet.
    - The collaborators that live outside the module (tool head, reactor,
      G-code dispatcher, output pins) are an [Env] of oracles that answer from
      the history of calls made so far; every call that asks them to act is
      appended to that history as an [event].
    - [toolhead.Move] and [simple_pid.PID] are not part of the module; what
      is used of them is modelled from the specification, and marked so. *)

From Stdlib Require Import QArith Qround ZArith List String Bool Lia Lqa.
Import ListNotations.

Local Open Scope Q_scope.

(** ** Python numerics *)

(** [round(x)]: nearest integer, ties to the even one. *)
Definition py_round (x : Q) : Z :=
  let f := Qfloor x in
  match Qcompare (x - inject_Z f) (1 # 2) with
  | Lt => f
  | Gt => (f + 1)%Z
  | Eq => if Z.even f then f else (f + 1)%Z
  end.

(** [round(x, 3)]. *)
Definition py_round3 (x : Q) : Q := Qmake (py_round (x * 1000)) 1000.

(** [math.ceil(x)]. *)
Definition py_ceil (x : Q) : Z := Qceiling x.

(** A coordinate with at most three decimals. *)
Definition three_decimals (c : Q) : Prop := exists k : Z, c = Qmake k 1000.

(** ** Exceptions *)

Inductive exn : Type :=
| AttributeError
| IndexError
| TypeError
| ZeroDivisionError
| CommandError (msg : string).   (* self.gcode.error *)

Inductive result (A : Type) : Type :=
| Ok (a : A)
| Raise (e : exn).
Arguments Ok {A} a.
Arguments Raise {A} e.

Definition rbind {A B} (r : result A) (k : A -> result B) : result B :=
  match r with
  | Ok a => k a
  | Raise e => Raise e
  end.

Declare Scope result_scope.
Delimit Scope result_scope with result.
Notation "x <- r ;; k" := (rbind r (fun x => k))
  (at level 61, r at next level, right associativity) : result_scope.

(** [a / b] on floats. *)
Definition py_truediv (a b : Q) : result Q :=
  if Qeq_bool b 0 then Raise ZeroDivisionError else Ok (a / b).

(** [l[i]]. *)
Definition py_index {A} (l : list A) (i : nat) : result A :=
  match nth_error l i with
  | Some a => Ok a
  | None => Raise IndexError
  end.

(** [l[-1]]. *)
Fixpoint py_last {A} (l : list A) : result A :=
  match l with
  | [] => Raise IndexError
  | [a] => Ok a
  | _ :: l' => py_last l'
  end.

(** ** The segment generator *)

Definition position := list Q.

(** The attributes of [toolhead.Move] that [split_move] reads. *)
Record Move : Type := mkMove {
  start_pos : position;
  end_pos : position;
  move_d : Q;
  axes_r : list Q
}.

(** What [toolhead.Move] computes from a start and an end position: the
    displacement [move_d] and one direction ratio per axis X, Y, Z, E. *)
Definition geometry := position -> position -> Q * (Q * Q * Q * Q).

(** Modelled from the spec: the constructor [toolhead.Move] is not part of
    this module.  The move keeps the start and the end position it was given;
    its displacement and its unit direction vector (4.4: the Euclidean
    displacement over the move and the unit direction vector) are read from
    the [geometry] of the tool head, a square root having no rational
    value. *)
Definition Move_new (geo : geometry) (pos newpos : position) : Move :=
  let '(d, (rx, ry, rz, re)) := geo pos newpos in
  {| start_pos := pos; end_pos := newpos; move_d := d;
     axes_r := [rx; ry; rz; re] |}.

(** One sub-move: [start, end, speed]. *)
Record SubMove : Type := mkSubMove {
  sm_start : position;
  sm_end : position;
  sm_speed : Q
}.

Local Open Scope result_scope.

(** [[round(start_pos[i] + (actual_move_length * v), 3)
      for i, v in enumerate(move_vector)]], from index [i] on. *)
Fixpoint advance_from (i : nat) (start : position) (actual_move_length : Q)
    (move_vector : list Q) : result position :=
  match move_vector with
  | [] => Ok []
  | v :: vs =>
      c <- py_index start i ;;
      rest <- advance_from (S i) start actual_move_length vs ;;
      Ok (py_round3 (c + actual_move_length * v) :: rest)
  end.

Definition advance := advance_from 0.

(** The body of [for _ in range(count)]. *)
Fixpoint split_loop (count : nat) (split_positions : list SubMove)
    (actual_move_length : Q) (move_vector : list Q) (speed : Q)
    : result (list SubMove) :=
  match count with
  | O => Ok split_positions
  | S count' =>
      prev <- py_last split_positions ;;
      let start := sm_end prev in
      stop <- advance start actual_move_length move_vector ;;
      split_loop count' (split_positions ++ [mkSubMove start stop speed])
        actual_move_length move_vector speed
  end.

(** [last_move = split_positions[-1]; last_move[1] = end_pos]. *)
Fixpoint set_last_end (split_positions : list SubMove) (stop : position)
    : result (list SubMove) :=
  match split_positions with
  | [] => Raise IndexError
  | [m] => Ok [mkSubMove (sm_start m) stop (sm_speed m)]
  | m :: l => l' <- set_last_end l stop ;; Ok (m :: l')
  end.

(** [split_move], after [pos = self.get_position()] and
    [move = Move(self.toolhead, pos, newpos, speed)]. *)
Definition split_move_of (move : Move) (move_split_dist speed : Q)
    : result (list SubMove) :=
  let target_move_length := move_split_dist in
  let move_dist := move_d move in
  q <- py_truediv move_dist target_move_length ;;
  let total_num_segments := py_ceil q in
  actual_move_length <- py_truediv move_dist (inject_Z total_num_segments) ;;
  let move_vector := axes_r move in
  first_move_end_pos <-
    advance (start_pos move) actual_move_length move_vector ;;
  let first_pos := mkSubMove (start_pos move) first_move_end_pos speed in
  split_positions <-
    split_loop (Z.to_nat (total_num_segments - 1)) [first_pos]
      actual_move_length move_vector speed ;;
  set_last_end split_positions (end_pos move).

(** ** The PID controller *)

Definition Qlt_bool (a b : Q) : bool := negb (Qle_bool b a).

(** Modelled from the spec: [clamp(raw, lower, upper)] of 4.1. *)
Definition clamp (x lower upper : Q) : Q :=
  if Qlt_bool x lower then lower
  else if Qlt_bool upper x then upper
  else x.

(** Modelled from the spec: the controller class [simple_pid.PID] is not part
    of this module.  Its state is the one of section 3: gains, setpoint,
    output bounds, minimum sample period, accumulated integral term, last
    error, last sample timestamp, last output. *)
Record PID : Type := mkPID {
  Kp : Q;
  Ki : Q;
  Kd : Q;
  setpoint : Q;
  output_limits : Q * Q;
  sample_time : Q;
  integral : Q;
  last_error : Q;
  last_time : Q;
  last_output : option Q
}.

(** Modelled from the spec: a controller as constructed, with no integral, no
    error history and no output yet; [now] is the clock at construction. *)
Definition PID_new (kp ki kd sp : Q) (limits : Q * Q) (period now : Q) : PID :=
  {| Kp := kp; Ki := ki; Kd := kd; setpoint := sp; output_limits := limits;
     sample_time := period; integral := 0; last_error := 0; last_time := now;
     last_output := None |}.

(** Modelled from the spec: [reset()] zeroes integral and last error, leaves
    setpoint, gains and bounds untouched, and does not produce an output
    (4.1). *)
Definition PID_reset (p : PID) : PID :=
  {| Kp := Kp p; Ki := Ki p; Kd := Kd p; setpoint := setpoint p;
     output_limits := output_limits p; sample_time := sample_time p;
     integral := 0; last_error := 0; last_time := last_time p;
     last_output := last_output p |}.

(** Modelled from the spec: [set_setpoint(v)], the assignment to
    [pid.setpoint]; it applies to the updates that follow. *)
Definition PID_set_setpoint (p : PID) (v : Q) : PID :=
  {| Kp := Kp p; Ki := Ki p; Kd := Kd p; setpoint := v;
     output_limits := output_limits p; sample_time := sample_time p;
     integral := integral p; last_error := last_error p;
     last_time := last_time p; last_output := last_output p |}.

(** Modelled from the spec: [set_gains(kp, ki, kd)], the assignment to
    [pid.tunings]. *)
Definition PID_set_tunings (p : PID) (kp ki kd : Q) : PID :=
  {| Kp := kp; Ki := ki; Kd := kd; setpoint := setpoint p;
     output_limits := output_limits p; sample_time := sample_time p;
     integral := integral p; last_error := last_error p;
     last_time := last_time p; last_output := last_output p |}.

(** Modelled from the spec: [update(sample, now)] of 4.1.  Called sooner than
    the minimum sample period after the last sample it returns no output and
    changes nothing.  Otherwise error, integral, derivative (zero when [dt]
    is zero) and the clamped output are computed; when the output was clamped
    the integral keeps its previous value. *)
Definition PID_update (p : PID) (sample now : Q) : PID * option Q :=
  let dt := now - last_time p in
  if Qlt_bool dt (sample_time p) then (p, None)
  else
    let error := setpoint p - sample in
    let integral' := integral p + error * dt in
    let derivative :=
      if Qeq_bool dt 0 then 0 else (error - last_error p) / dt in
    let raw := Kp p * error + Ki p * integral' + Kd p * derivative in
    let out := clamp raw (fst (output_limits p)) (snd (output_limits p)) in
    let integral'' := if Qeq_bool out raw then integral' else integral p in
    ({| Kp := Kp p; Ki := Ki p; Kd := Kd p; setpoint := setpoint p;
        output_limits := output_limits p; sample_time := sample_time p;
        integral := integral''; last_error := error; last_time := now;
        last_output := Some out |},
     Some out).

(** ** The state of a [PowerCore] object *)

(** The tool head object that [printer.lookup_object("toolhead")] returns. *)
Inductive ToolHead : Type := the_toolhead.

(** [WireMover]: the tool head reference it was constructed with and the pin
    its [pwm_tool] drives. *)
Record WireMover : Type := mkWireMover {
  wm_toolhead : option ToolHead;
  wm_pin : string
}.

(** What a controller call hands back to Python: a float, or [None]. *)
Inductive value : Type :=
| PyNone
| PyFloat (x : Q).

Definition value_of (o : option Q) : value :=
  match o with
  | Some x => PyFloat x
  | None => PyNone
  end.

Record PowerCore : Type := mkPowerCore {
  toolhead : option ToolHead;
  target_duty_cycle : Q;
  min_feedrate : Q;
  max_feedrate : Q;
  adjustment_accel : Q;
  feedrate_pid_controller : PID;
  move_split_dist : Q;
  move_overlap_time : Q;
  scaling_enabled : bool;
  wire_pid_controller : PID;
  wire_tension_loop_enabled : bool;
  sender_wire_tool : WireMover;
  receiver_wire_tool : WireMover;
  sender_is_primary : bool;
  output : option value;            (* created by pwm_in_callback *)
  processing_moves : option bool    (* created by execute_moves *)
}.

(** The options read by [__init__], after [config.getfloat] and the like have
    applied their defaults. *)
Record Config : Type := mkConfig {
  cfg_target_duty_cycle : Q;
  cfg_min_feedrate : Q;
  cfg_max_feedrate : Q;
  cfg_powercore_adjustment_accel : Q;
  cfg_pid_kp : Q;
  cfg_pid_ki : Q;
  cfg_pid_kd : Q;
  cfg_alrt_sample_interval : Q;
  cfg_move_split_dist : Q;
  cfg_move_overlap_time : Q;
  cfg_default_wire_tension_target : Q;
  cfg_wire_pid_kp : Q;
  cfg_wire_pid_ki : Q;
  cfg_wire_pid_kd : Q;
  cfg_update_interval : Q;          (* wire_load_cell.sensor.UPDATE_INTERVAL *)
  cfg_sender_wire_motor_pin : string;
  cfg_receiver_wire_motor_pin : string;
  cfg_sender_is_primary : bool
}.

(** The bounds that [__init__] passes to [config.getfloat]. *)
Definition config_valid (c : Config) : Prop :=
  0 <= cfg_target_duty_cycle c /\ cfg_target_duty_cycle c <= 1 /\
  1 <= cfg_min_feedrate c /\
  cfg_min_feedrate c <= cfg_max_feedrate c /\
  0 < cfg_powercore_adjustment_accel c /\
  0 < cfg_move_split_dist c.

(** The defaults of [__init__]; the two pins have none and are named here. *)
Definition default_config : Config :=
  {| cfg_target_duty_cycle := 75 # 100;
     cfg_min_feedrate := 6;
     cfg_max_feedrate := 120;
     cfg_powercore_adjustment_accel := 5000;
     cfg_pid_kp := 1 # 10;
     cfg_pid_ki := 0;
     cfg_pid_kd := 0;
     cfg_alrt_sample_interval := 1 # 10;
     cfg_move_split_dist := 1 # 10;
     cfg_move_overlap_time := 1 # 1000;
     cfg_default_wire_tension_target := 0;
     cfg_wire_pid_kp := 1 # 10;
     cfg_wire_pid_ki := 0;
     cfg_wire_pid_kd := 0;
     cfg_update_interval := 1 # 10;
     cfg_sender_wire_motor_pin := "sender";
     cfg_receiver_wire_motor_pin := "receiver";
     cfg_sender_is_primary := true |}.

Definition WireMover_new (th : option ToolHead) (pin : string) : WireMover :=
  {| wm_toolhead := th; wm_pin := pin |}.

(** [PowerCore.__init__]; [now] is [reactor.monotonic()] at that moment.  The
    attribute [toolhead] is [None] when the two [WireMover]s are made from
    it. *)
Definition PowerCore_init (c : Config) (now : Q) : PowerCore :=
  let toolhead0 : option ToolHead := None in
  {| toolhead := toolhead0;
     target_duty_cycle := cfg_target_duty_cycle c;
     min_feedrate := cfg_min_feedrate c;
     max_feedrate := cfg_max_feedrate c;
     adjustment_accel := cfg_powercore_adjustment_accel c;
     feedrate_pid_controller :=
       PID_new (cfg_pid_kp c) (cfg_pid_ki c) (cfg_pid_kd c)
         (cfg_target_duty_cycle c) (0, 1) (cfg_alrt_sample_interval c) now;
     move_split_dist := cfg_move_split_dist c;
     move_overlap_time := cfg_move_overlap_time c;
     scaling_enabled := false;
     wire_pid_controller :=
       PID_new (cfg_wire_pid_kp c) (cfg_wire_pid_ki c) (cfg_wire_pid_kd c)
         (cfg_default_wire_tension_target c) (0, 1) (cfg_update_interval c)
         now;
     wire_tension_loop_enabled := true;
     sender_wire_tool := WireMover_new toolhead0 (cfg_sender_wire_motor_pin c);
     receiver_wire_tool :=
       WireMover_new toolhead0 (cfg_receiver_wire_motor_pin c);
     sender_is_primary := cfg_sender_is_primary c;
     output := None;
     processing_moves := None |}.

(** Attribute assignment, [self.f = v], one function per attribute that the
    methods assign.  The two debug switches [verbose_pid_output] and
    [verbose_move_scaling_output] only select log lines and are left out. *)
Definition set_toolhead (v : option ToolHead) (self : PowerCore) : PowerCore :=
  {| toolhead := v; target_duty_cycle := target_duty_cycle self;
     min_feedrate := min_feedrate self; max_feedrate := max_feedrate self;
     adjustment_accel := adjustment_accel self;
     feedrate_pid_controller := feedrate_pid_controller self;
     move_split_dist := move_split_dist self;
     move_overlap_time := move_overlap_time self;
     scaling_enabled := scaling_enabled self;
     wire_pid_controller := wire_pid_controller self;
     wire_tension_loop_enabled := wire_tension_loop_enabled self;
     sender_wire_tool := sender_wire_tool self;
     receiver_wire_tool := receiver_wire_tool self;
     sender_is_primary := sender_is_primary self; output := output self;
     processing_moves := processing_moves self |}.

Definition set_target_duty_cycle (v : Q) (self : PowerCore) : PowerCore :=
  {| toolhead := toolhead self; target_duty_cycle := v;
     min_feedrate := min_feedrate self; max_feedrate := max_feedrate self;
     adjustment_accel := adjustment_accel self;
     feedrate_pid_controller := feedrate_pid_controller self;
     move_split_dist := move_split_dist self;
     move_overlap_time := move_overlap_time self;
     scaling_enabled := scaling_enabled self;
     wire_pid_controller := wire_pid_controller self;
     wire_tension_loop_enabled := wire_tension_loop_enabled self;
     sender_wire_tool := sender_wire_tool self;
     receiver_wire_tool := receiver_wire_tool self;
     sender_is_primary := sender_is_primary self; output := output self;
     processing_moves := processing_moves self |}.

Definition set_min_feedrate (v : Q) (self : PowerCore) : PowerCore :=
  {| toolhead := toolhead self; target_duty_cycle := target_duty_cycle self;
     min_feedrate := v; max_feedrate := max_feedrate self;
     adjustment_accel := adjustment_accel self;
     feedrate_pid_controller := feedrate_pid_controller self;
     move_split_dist := move_split_dist self;
     move_overlap_time := move_overlap_time self;
     scaling_enabled := scaling_enabled self;
     wire_pid_controller := wire_pid_controller self;
     wire_tension_loop_enabled := wire_tension_loop_enabled self;
     sender_wire_tool := sender_wire_tool self;
     receiver_wire_tool := receiver_wire_tool self;
     sender_is_primary := sender_is_primary self; output := output self;
     processing_moves := processing_moves self |}.

Definition set_max_feedrate (v : Q) (self : PowerCore) : PowerCore :=
  {| toolhead := toolhead self; target_duty_cycle := target_duty_cycle self;
     min_feedrate := min_feedrate self; max_feedrate := v;
     adjustment_accel := adjustment_accel self;
     feedrate_pid_controller := feedrate_pid_controller self;
     move_split_dist := move_split_dist self;
     move_overlap_time := move_overlap_time self;
     scaling_enabled := scaling_enabled self;
     wire_pid_controller := wire_pid_controller self;
     wire_tension_loop_enabled := wire_tension_loop_enabled self;
     sender_wire_tool := sender_wire_tool self;
     receiver_wire_tool := receiver_wire_tool self;
     sender_is_primary := sender_is_primary self; output := output self;
     processing_moves := processing_moves self |}.

Definition set_feedrate_pid_controller (v : PID) (self : PowerCore) : PowerCore :=
  {| toolhead := toolhead self; target_duty_cycle := target_duty_cycle self;
     min_feedrate := min_feedrate self; max_feedrate := max_feedrate self;
     adjustment_accel := adjustment_accel self; feedrate_pid_controller := v;
     move_split_dist := move_split_dist self;
     move_overlap_time := move_overlap_time self;
     scaling_enabled := scaling_enabled self;
     wire_pid_controller := wire_pid_controller self;
     wire_tension_loop_enabled := wire_tension_loop_enabled self;
     sender_wire_tool := sender_wire_tool self;
     receiver_wire_tool := receiver_wire_tool self;
     sender_is_primary := sender_is_primary self; output := output self;
     processing_moves := processing_moves self |}.

Definition set_scaling_enabled (v : bool) (self : PowerCore) : PowerCore :=
  {| toolhead := toolhead self; target_duty_cycle := target_duty_cycle self;
     min_feedrate := min_feedrate self; max_feedrate := max_feedrate self;
     adjustment_accel := adjustment_accel self;
     feedrate_pid_controller := feedrate_pid_controller self;
     move_split_dist := move_split_dist self;
     move_overlap_time := move_overlap_time self; scaling_enabled := v;
     wire_pid_controller := wire_pid_controller self;
     wire_tension_loop_enabled := wire_tension_loop_enabled self;
     sender_wire_tool := sender_wire_tool self;
     receiver_wire_tool := receiver_wire_tool self;
     sender_is_primary := sender_is_primary self; output := output self;
     processing_moves := processing_moves self |}.

Definition set_wire_pid_controller (v : PID) (self : PowerCore) : PowerCore :=
  {| toolhead := toolhead self; target_duty_cycle := target_duty_cycle self;
     min_feedrate := min_feedrate self; max_feedrate := max_feedrate self;
     adjustment_accel := adjustment_accel self;
     feedrate_pid_controller := feedrate_pid_controller self;
     move_split_dist := move_split_dist self;
     move_overlap_time := move_overlap_time self;
     scaling_enabled := scaling_enabled self; wire_pid_controller := v;
     wire_tension_loop_enabled := wire_tension_loop_enabled self;
     sender_wire_tool := sender_wire_tool self;
     receiver_wire_tool := receiver_wire_tool self;
     sender_is_primary := sender_is_primary self; output := output self;
     processing_moves := processing_moves self |}.

Definition set_wire_tension_loop_enabled (v : bool) (self : PowerCore) : PowerCore :=
  {| toolhead := toolhead self; target_duty_cycle := target_duty_cycle self;
     min_feedrate := min_feedrate self; max_feedrate := max_feedrate self;
     adjustment_accel := adjustment_accel self;
     feedrate_pid_controller := feedrate_pid_controller self;
     move_split_dist := move_split_dist self;
     move_overlap_time := move_overlap_time self;
     scaling_enabled := scaling_enabled self;
     wire_pid_controller := wire_pid_controller self;
     wire_tension_loop_enabled := v;
     sender_wire_tool := sender_wire_tool self;
     receiver_wire_tool := receiver_wire_tool self;
     sender_is_primary := sender_is_primary self; output := output self;
     processing_moves := processing_moves self |}.

Definition set_output (v : option value) (self : PowerCore) : PowerCore :=
  {| toolhead := toolhead self; target_duty_cycle := target_duty_cycle self;
     min_feedrate := min_feedrate self; max_feedrate := max_feedrate self;
     adjustment_accel := adjustment_accel self;
     feedrate_pid_controller := feedrate_pid_controller self;
     move_split_dist := move_split_dist self;
     move_overlap_time := move_overlap_time self;
     scaling_enabled := scaling_enabled self;
     wire_pid_controller := wire_pid_controller self;
     wire_tension_loop_enabled := wire_tension_loop_enabled self;
     sender_wire_tool := sender_wire_tool self;
     receiver_wire_tool := receiver_wire_tool self;
     sender_is_primary := sender_is_primary self; output := v;
     processing_moves := processing_moves self |}.

Definition set_processing_moves (v : option bool) (self : PowerCore) : PowerCore :=
  {| toolhead := toolhead self; target_duty_cycle := target_duty_cycle self;
     min_feedrate := min_feedrate self; max_feedrate := max_feedrate self;
     adjustment_accel := adjustment_accel self;
     feedrate_pid_controller := feedrate_pid_controller self;
     move_split_dist := move_split_dist self;
     move_overlap_time := move_overlap_time self;
     scaling_enabled := scaling_enabled self;
     wire_pid_controller := wire_pid_controller self;
     wire_tension_loop_enabled := wire_tension_loop_enabled self;
     sender_wire_tool := sender_wire_tool self;
     receiver_wire_tool := receiver_wire_tool self;
     sender_is_primary := sender_is_primary self; output := output self;
     processing_moves := v |}.

(** ** Collaborators and effects *)

(** A piece of an f-string: literal text or a formatted number. *)
Inductive frag : Type :=
| Txt (s : string)
| Num (x : Q).

Definition message := list frag.

(** The calls the module makes on its collaborators. *)
Inductive event : Type :=
| ToolheadMove (newpos : position) (speed : Q)   (* toolhead.move *)
| RegisterLookaheadCallback       (* toolhead.register_lookahead_callback *)
| LookaheadFlush                  (* toolhead.lookahead.flush *)
| ReactorPause (waketime : Q)     (* reactor.pause *)
| KinCheckMove                    (* the saved kin.check_move *)
| MoveSetSpeed (speed accel : Q)  (* move.set_speed *)
| SetPin (pin : string) (print_time value : Q)   (* pwm_tool._set_pin *)
| RespondInfo (msg : message)     (* gcmd.respond_info *)
| RespondError (msg : message)    (* gcmd.respond_error, gcode._respond_error *)
| SendEvent (name : string).      (* printer.send_event *)

(** How the collaborators answer, given the calls made so far.  A call that
    can raise answers with the exception; the two look-ahead calls answer with
    the time the tool head passes to the registered callback, when it runs
    it. *)
Record Env : Type := mkEnv {
  toolhead_get_position : list event -> Q * Q * Q * Q;
  toolhead_geometry : geometry;
  toolhead_move : list event -> position -> Q -> option exn;
  toolhead_register_lookahead_callback : list event -> result (option Q);
  toolhead_lookahead_flush : list event -> result (option Q);
  toolhead_get_last_move_time : list event -> Q;
  reactor_pause : list event -> Q -> option exn;
  kin_check_move : list event -> option exn
}.

(** A method: it runs on the object and the history of calls, and leaves
    both, changed, with its result or the exception it raised. *)
Definition M (A : Type) : Type :=
  PowerCore -> list event -> PowerCore * list event * result A.

Definition ret {A} (a : A) : M A := fun self h => (self, h, Ok a).

Definition raise {A} (e : exn) : M A := fun self h => (self, h, Raise e).

Definition bind {A B} (m : M A) (k : A -> M B) : M B :=
  fun self h =>
    match m self h with
    | (self', h', Ok a) => k a self' h'
    | (self', h', Raise e) => (self', h', Raise e)
    end.

Definition lift {A} (r : result A) : M A := fun self h => (self, h, r).

Definition getattr {A} (f : PowerCore -> A) : M A :=
  fun self h => (self, h, Ok (f self)).

Definition setattr (f : PowerCore -> PowerCore) : M unit :=
  fun self h => (f self, h, Ok tt).

Definition calls : M (list event) := fun self h => (self, h, Ok h).

Definition emit (e : event) : M unit := fun self h => (self, h ++ [e], Ok tt).

(** A call that may raise: it is recorded, then its answer is looked up. *)
Definition call (e : event) (answer : list event -> option exn) : M unit :=
  fun self h =>
    match answer h with
    | None => (self, h ++ [e], Ok tt)
    | Some x => (self, h ++ [e], Raise x)
    end.

Declare Scope method_scope.
Delimit Scope method_scope with method.
Notation "x <- m ;; k" := (bind m (fun x => k))
  (at level 61, m at next level, right associativity) : method_scope.
Notation "m ;; k" := (bind m (fun _ => k))
  (at level 61, right associativity) : method_scope.

(** The effects of a method: what it appended to the history. *)
Definition history_of {A} (r : PowerCore * list event * result A)
  : list event := snd (fst r).
Definition object_of {A} (r : PowerCore * list event * result A)
  : PowerCore := fst (fst r).
Definition result_of {A} (r : PowerCore * list event * result A)
  : result A := snd r.

(** [gcmd.get_float(name, default)]: the parameter when given. *)
Definition get_float (param : option Q) (default : Q) : Q :=
  match param with
  | Some x => x
  | None => default
  end.

(** [self.toolhead.f(...)]: the attribute must hold a tool head. *)
Definition the_tool (th : option ToolHead) : M ToolHead :=
  match th with
  | Some t => ret t
  | None => raise AttributeError
  end.

(** A call that answers with a value or raises. *)
Definition ask {A} (e : event) (answer : list event -> result A) : M A :=
  fun self h => (self, h ++ [e], answer h).

(** [try: body except self.gcode.error as e]: the text of the error when one
    was caught; any other exception goes through. *)
Definition catch_command_error (body : M unit) : M (option string) :=
  fun self h =>
    match body self h with
    | (self', h', Ok _) => (self', h', Ok None)
    | (self', h', Raise (CommandError e)) => (self', h', Ok (Some e))
    | (self', h', Raise x) => (self', h', Raise x)
    end.

(** ** The methods *)

Section Methods.

Variable env : Env.

Local Open Scope method_scope.

(** [WireMover.set_speed]. *)
Definition WireMover_set_speed (w : WireMover) (speed : Q) : M unit :=
  _ <- the_tool (wm_toolhead w) ;;
  h <- calls ;;
  let print_time := toolhead_get_last_move_time env h in
  emit (SetPin (wm_pin w) print_time speed).

(** [wire_tension_callback(msg)] with [msg["data"] = data]; [now] is the
    clock the controller reads. *)
Definition wire_tension_callback (now : Q) (data : list Q) : M unit :=
  enabled <- getattr wire_tension_loop_enabled ;;
  if negb enabled then ret tt
  else
    sample <- lift (py_last data) ;;
    pid <- getattr wire_pid_controller ;;
    let (pid', out) := PID_update pid sample now in
    setattr (set_wire_pid_controller pid') ;;
    o <- match out with
         | Some o => ret o
         | None => raise TypeError      (* None * 255 *)
         end ;;
    let speed := inject_Z (py_round (o * 255)) in
    primary <- getattr sender_is_primary ;;
    if primary
    then w <- getattr receiver_wire_tool ;; WireMover_set_speed w speed
    else w <- getattr sender_wire_tool ;; WireMover_set_speed w speed.

Definition cmd_SET_WIRE_FEED (speed : Q) : M unit :=
  enabled <- getattr wire_tension_loop_enabled ;;
  (if negb enabled
   then
     s <- getattr sender_wire_tool ;;
     WireMover_set_speed s speed ;;
     r <- getattr receiver_wire_tool ;;
     WireMover_set_speed r speed
   else
     primary <- getattr sender_is_primary ;;
     if primary
     then s <- getattr sender_wire_tool ;; WireMover_set_speed s speed
     else r <- getattr receiver_wire_tool ;; WireMover_set_speed r speed) ;;
  emit (RespondInfo [Txt "Wire feed speed set to: "; Num speed]).

Definition cmd_SET_WIRE_TENSION_TARGET (target : Q) : M unit :=
  pid <- getattr wire_pid_controller ;;
  setattr (set_wire_pid_controller (PID_set_setpoint pid target)) ;;
  emit (RespondInfo [Txt "Wire tension target set to: "; Num target]).

Definition cmd_ENABLE_WIRE_TENSION_LOOP (enable : Z) : M unit :=
  let should_enable := negb (Z.eqb enable 0) in
  setattr (set_wire_tension_loop_enabled should_enable) ;;
  enabled <- getattr wire_tension_loop_enabled ;;
  if enabled
  then
    pid <- getattr wire_pid_controller ;;
    setattr (set_wire_pid_controller (PID_reset pid)) ;;
    emit (RespondInfo [Txt "Wire tension loop enabled"])
  else emit (RespondInfo [Txt "Wire tension loop disabled"]).

Definition cmd_RESET_WIRE_TENSION_PID : M unit :=
  pid <- getattr wire_pid_controller ;;
  setattr (set_wire_pid_controller (PID_reset pid)) ;;
  emit (RespondInfo [Txt "Wire tension PID controller reset"]).

(** [pwm_in_callback(duty_cycle)]; [now] is the clock the controller
    reads. *)
Definition pwm_in_callback (now : Q) (duty_cycle : Q) : M unit :=
  enabled <- getattr scaling_enabled ;;
  if negb enabled then ret tt
  else
    pid <- getattr feedrate_pid_controller ;;
    let (pid', out) := PID_update pid duty_cycle now in
    setattr (set_feedrate_pid_controller pid') ;;
    setattr (set_output (Some (value_of out))).

(** [_handle_connect]: of its effects only the assignment to [self.toolhead]
    is state of this object; the move transform and the patched
    [kin.check_move] are what routes [move] and [check_move] here. *)
Definition _handle_connect : M unit :=
  setattr (set_toolhead (Some the_toolhead)).

Definition cmd_set_powercore_feedrates (MIN MAX : option Q) : M unit :=
  cur_min <- getattr min_feedrate ;;
  cur_max <- getattr max_feedrate ;;
  let min_req := get_float MIN cur_min in
  let max_req := get_float MAX cur_max in
  if Qlt_bool max_req min_req
  then
    emit (RespondError
            [Txt "Min feedrate must be greater than max feedrate! (";
             Num min_req; Txt " > "; Num max_req; Txt ")"])
  else
    setattr (set_min_feedrate min_req) ;;
    setattr (set_max_feedrate max_req) ;;
    emit (RespondInfo
            [Txt "Min feedrate: "; Num min_req; Txt ", max_feedrate: ";
             Num max_req]).

Definition cmd_reset_pid : M unit :=
  pid <- getattr feedrate_pid_controller ;;
  setattr (set_feedrate_pid_controller (PID_reset pid)) ;;
  emit (RespondInfo [Txt "Reset powercore PID"]).

Definition cmd_set_target_duty_cycle (DUTY_CYCLE : option Q) : M unit :=
  cur <- getattr target_duty_cycle ;;
  let target := get_float DUTY_CYCLE cur in
  setattr (set_target_duty_cycle target) ;;
  pid <- getattr feedrate_pid_controller ;;
  setattr (set_feedrate_pid_controller (PID_set_setpoint pid target)) ;;
  emit (RespondInfo [Txt "Target duty cycle: "; Num target]).

Definition cmd_set_pid_params (KP KI KD : option Q) : M unit :=
  pid <- getattr feedrate_pid_controller ;;
  let kp := get_float KP (Kp pid) in
  let ki := get_float KI (Ki pid) in
  let kd := get_float KD (Kd pid) in
  setattr (set_feedrate_pid_controller (PID_set_tunings pid kp ki kd)) ;;
  emit (RespondInfo
          [Txt "PID Params: Kp: "; Num kp; Txt ", Ki: "; Num ki;
           Txt ", Kd: "; Num kd]).

Definition enable_scaling : M unit :=
  pid <- getattr feedrate_pid_controller ;;
  setattr (set_feedrate_pid_controller (PID_reset pid)) ;;
  setattr (set_scaling_enabled true).

Definition disable_scaling : M unit :=
  setattr (set_scaling_enabled false).

Definition cmd_enable_scaling : M unit :=
  enable_scaling ;;
  emit (RespondInfo [Txt "Enabled powercore move scaling"]).

Definition cmd_disable_scaling : M unit :=
  disable_scaling ;;
  emit (RespondInfo [Txt "Disabled powercore move scaling"]).

(** [scale_move(move)]: the feed rate and acceleration it sets on the
    move. *)
Definition scale_move : M unit :=
  attr <- getattr output ;;
  v <- match attr with
       | Some v => ret v
       | None => raise AttributeError   (* no attribute 'output' *)
       end ;;
  o <- match v with
       | PyFloat o => ret o
       | PyNone => raise TypeError      (* None * float *)
       end ;;
  lo <- getattr min_feedrate ;;
  hi <- getattr max_feedrate ;;
  let feedrate := lo + o * (hi - lo) in
  let feedrate := feedrate / 60 in
  accel <- getattr adjustment_accel ;;
  emit (MoveSetSpeed feedrate accel).

Definition check_move : M unit :=
  call KinCheckMove (kin_check_move env) ;;
  enabled <- getattr scaling_enabled ;;
  if negb enabled then ret tt else scale_move.

(** The body of the [try] in [execute_moves]. *)
Definition submit (move : SubMove) : M unit :=
  th <- getattr toolhead ;;
  _ <- the_tool th ;;
  call (ToolheadMove (sm_end move) (sm_speed move))
       (fun h => toolhead_move env h (sm_end move) (sm_speed move)) ;;
  at_register <-
    ask RegisterLookaheadCallback
        (toolhead_register_lookahead_callback env) ;;
  at_flush <- ask LookaheadFlush (toolhead_lookahead_flush env) ;;
  overlap <- getattr move_overlap_time ;;
  let next_move_time :=
    match at_flush with
    | Some t => Some t
    | None => at_register
    end in
  match next_move_time with
  | None => ret tt
  | Some t =>
      let wake_time := t - overlap in
      if Qeq_bool wake_time 0 then ret tt
      else call (ReactorPause wake_time)
                (fun h => reactor_pause env h wake_time)
  end.

Fixpoint execute_moves (moves : list SubMove) : M unit :=
  match moves with
  | [] => ret tt
  | move :: moves' =>
      setattr (set_processing_moves (Some true)) ;;
      caught <- catch_command_error (submit move) ;;
      match caught with
      | None => execute_moves moves'
      | Some e =>
          emit (RespondError [Txt e]) ;;
          emit (SendEvent "gcode:command_error")
      end
  end.

Definition get_position : M position :=
  th <- getattr toolhead ;;
  _ <- the_tool th ;;
  h <- calls ;;
  let '(x, y, z, e) := toolhead_get_position env h in
  ret [x; y; z; e].

Definition split_move (newpos : position) (speed : Q) : M (list SubMove) :=
  pos <- get_position ;;
  let move := Move_new (toolhead_geometry env) pos newpos in
  dist <- getattr move_split_dist ;;
  lift (split_move_of move dist speed).

Definition move (newpos : position) (speed : Q) : M unit :=
  enabled <- getattr scaling_enabled ;;
  if enabled
  then
    split_positions <- split_move newpos speed ;;
    execute_moves split_positions
  else
    th <- getattr toolhead ;;
    _ <- the_tool th ;;
    call (ToolheadMove newpos speed)
         (fun h => toolhead_move env h newpos speed).

(** ** The object over its life *)

(** What the host can do with the object once it is constructed. *)
Inductive op : Type :=
| OpConnect
| OpWireTension (now : Q) (data : list Q)
| OpSetWireFeed (speed : Q)
| OpSetWireTensionTarget (target : Q)
| OpEnableWireTensionLoop (enable : Z)
| OpResetWireTensionPid
| OpPwmIn (now duty_cycle : Q)
| OpSetFeedrates (MIN MAX : option Q)
| OpResetPid
| OpSetTargetDutyCycle (DUTY_CYCLE : option Q)
| OpSetPidParams (KP KI KD : option Q)
| OpEnableScaling
| OpDisableScaling
| OpCheckMove
| OpMove (newpos : position) (speed : Q).

Definition run_op (o : op) : M unit :=
  match o with
  | OpConnect => _handle_connect
  | OpWireTension now data => wire_tension_callback now data
  | OpSetWireFeed speed => cmd_SET_WIRE_FEED speed
  | OpSetWireTensionTarget target => cmd_SET_WIRE_TENSION_TARGET target
  | OpEnableWireTensionLoop enable => cmd_ENABLE_WIRE_TENSION_LOOP enable
  | OpResetWireTensionPid => cmd_RESET_WIRE_TENSION_PID
  | OpPwmIn now duty_cycle => pwm_in_callback now duty_cycle
  | OpSetFeedrates MIN MAX => cmd_set_powercore_feedrates MIN MAX
  | OpResetPid => cmd_reset_pid
  | OpSetTargetDutyCycle d => cmd_set_target_duty_cycle d
  | OpSetPidParams KP KI KD => cmd_set_pid_params KP KI KD
  | OpEnableScaling => cmd_enable_scaling
  | OpDisableScaling => cmd_disable_scaling
  | OpCheckMove => check_move
  | OpMove newpos speed => move newpos speed
  end.

(** A run of operations; an exception ends the operation that raised it and
    the object goes on as that operation left it. *)
Fixpoint run_ops (ops : list op) (self : PowerCore) (h : list event)
    : PowerCore * list event :=
  match ops with
  | [] => (self, h)
  | o :: ops' =>
      let r := run_op o self h in
      run_ops ops' (object_of r) (history_of r)
  end.

End Methods.

(** ** Example collaborators *)

(** The geometry of moves along the X axis. *)
Definition axis_geometry : geometry :=
  fun pos newpos =>
    let dx := nth 0 newpos 0 - nth 0 pos 0 in
    if Qeq_bool dx 0 then (0, (0, 0, 0, 0))
    else if Qlt_bool dx 0 then (- dx, (- (1), 0, 0, 0))
    else (dx, (1, 0, 0, 0)).

(** The moves that were handed to the tool head, in order. *)
Fixpoint moves_in (h : list event) : list (position * Q) :=
  match h with
  | [] => []
  | ToolheadMove newpos speed :: h' => (newpos, speed) :: moves_in h'
  | _ :: h' => moves_in h'
  end.

(** A tool head at rest at [pos] that accepts every move, or refuses the move
    numbered [refused] (from 0) with a command error; it runs the look-ahead
    callback at flush time, one time unit per move made. *)
Definition bench (pos : Q * Q * Q * Q) (refused : option nat) : Env :=
  {| toolhead_get_position := fun _ => pos;
     toolhead_geometry := axis_geometry;
     toolhead_move := fun h _ _ =>
       match refused with
       | Some k =>
           if Nat.eqb (List.length (moves_in h)) k
           then Some (CommandError "Move out of range")
           else None
       | None => None
       end;
     toolhead_register_lookahead_callback := fun _ => Ok None;
     toolhead_lookahead_flush := fun h =>
       Ok (Some (inject_Z (Z.of_nat (List.length (moves_in h)))));
     toolhead_get_last_move_time := fun h =>
       inject_Z (Z.of_nat (List.length (moves_in h)));
     reactor_pause := fun _ _ => None;
     kin_check_move := fun _ => None |}.

(** The default options with a segment length of 2. *)
Definition coarse_config : Config :=
  {| cfg_target_duty_cycle := cfg_target_duty_cycle default_config;
     cfg_min_feedrate := cfg_min_feedrate default_config;
     cfg_max_feedrate := cfg_max_feedrate default_config;
     cfg_powercore_adjustment_accel :=
       cfg_powercore_adjustment_accel default_config;
     cfg_pid_kp := cfg_pid_kp default_config;
     cfg_pid_ki := cfg_pid_ki default_config;
     cfg_pid_kd := cfg_pid_kd default_config;
     cfg_alrt_sample_interval := cfg_alrt_sample_interval default_config;
     cfg_move_split_dist := 2;
     cfg_move_overlap_time := cfg_move_overlap_time default_config;
     cfg_default_wire_tension_target :=
       cfg_default_wire_tension_target default_config;
     cfg_wire_pid_kp := cfg_wire_pid_kp default_config;
     cfg_wire_pid_ki := cfg_wire_pid_ki default_config;
     cfg_wire_pid_kd := cfg_wire_pid_kd default_config;
     cfg_update_interval := cfg_update_interval default_config;
     cfg_sender_wire_motor_pin := cfg_sender_wire_motor_pin default_config;
     cfg_receiver_wire_motor_pin :=
       cfg_receiver_wire_motor_pin default_config;
     cfg_sender_is_primary := cfg_sender_is_primary default_config |}.

(** The object with these options, constructed at time 0, connected and
    with feed scaling enabled. *)
Definition connected_coarse : PowerCore :=
  object_of
    (enable_scaling
       (object_of (_handle_connect (PowerCore_init coarse_config 0) [])) []).

(** The object with the default options, constructed at time 0 and
    connected. *)
Definition connected_default : PowerCore :=
  object_of (_handle_connect (PowerCore_init default_config 0) []).

(** ** Vocabulary of the statements *)

(** A path of sub-moves that leaves from [p]: each one starts where the one
    before it ends. *)
Fixpoint linked (p : position) (l : list SubMove) : Prop :=
  match l with
  | [] => True
  | m :: l' => sm_start m = p /\ linked (sm_end m) l'
  end.

(** What a tool head is asked to do for a sub-move. *)
Definition target (m : SubMove) : position * Q := (sm_end m, sm_speed m).

(** Where the tool head says it is, as [get_position] returns it. *)
Definition position_of (env : Env) (h : list event) : position :=
  let '(x, y, z, e) := toolhead_get_position env h in [x; y; z; e].

(** The displacement [move_d] of the move from there to [newpos]. *)
Definition displacement (env : Env) (h : list event) (newpos : position)
  : Q := fst (toolhead_geometry env (position_of env h) newpos).


(** Controller [p] with another integral term and another last error. *)
Definition PID_with_state (p : PID) (i e : Q) : PID :=
  {| Kp := Kp p; Ki := Ki p; Kd := Kd p; setpoint := setpoint p;
     output_limits := output_limits p; sample_time := sample_time p;
     integral := i; last_error := e; last_time := last_time p;
     last_output := last_output p |}.




(** The object without the marker that [execute_moves] leaves on it. *)
Definition forget_processing (self : PowerCore) : PowerCore :=
  set_processing_moves None self.



(** The sub-moves of a list went to the tool head one after the other and
    none raised: the object and the history before and after. *)
Inductive all_submitted (env : Env)
  : list SubMove -> PowerCore -> list event -> PowerCore -> list event -> Prop :=
| submitted_nil (self : PowerCore) (h : list event) :
    all_submitted env [] self h self h
| submitted_cons (m : SubMove) (ms : list SubMove)
    (self self1 self2 : PowerCore) (h h1 h2 : list event) :
    submit env m (set_processing_moves (Some true) self) h = (self1, h1, Ok tt) ->
    all_submitted env ms self1 h1 self2 h2 ->
    all_submitted env (m :: ms) self h self2 h2.

(** The events that drive a pin. *)
Fixpoint pins_in (h : list event) : list (string * Q) :=
  match h with
  | [] => []
  | SetPin pin _ value :: h' => (pin, value) :: pins_in h'
  | _ :: h' => pins_in h'
  end.

(** Five segments of 2 mm along X, as [split_move] cuts a move of 10 mm. *)
Definition five_segments : list SubMove :=
  [mkSubMove [0; 0; 0; 0] [2; 0; 0; 0] 50;
   mkSubMove [2; 0; 0; 0] [4; 0; 0; 0] 50;
   mkSubMove [4; 0; 0; 0] [6; 0; 0; 0] 50;
   mkSubMove [6; 0; 0; 0] [8; 0; 0; 0] 50;
   mkSubMove [8; 0; 0; 0] [10; 0; 0; 0] 50].

(** The default object after ENABLE_WIRE_TENSION_LOOP ENABLE=0. *)
Definition loop_disabled : PowerCore :=
  object_of (cmd_ENABLE_WIRE_TENSION_LOOP 0 connected_default []).

(** An object whose two wire movers hold the tool head. *)
Definition attached (self : PowerCore) : Prop :=
  wm_toolhead (sender_wire_tool self) = Some the_toolhead /\
  wm_toolhead (receiver_wire_tool self) = Some the_toolhead.

(** ** Reading the duty cycle *)

(** [PowerCorePWMReader.get_current_duty_cycle]; [measured] is what
    [self._pwm_in.get_duty_cycle()] answers. *)
Definition get_current_duty_cycle (measured : Q) : Q := py_round3 measured.

(** [cmd_get_duty_cycle]. *)
Definition cmd_get_duty_cycle (measured : Q) : M unit :=
  let duty_cycle := get_current_duty_cycle measured in
  emit (RespondInfo [Txt "duty_cycle: "; Num duty_cycle]).

(** ** Further vocabulary *)

(** A tool head and a reactor that never raise. *)
Definition accepting (env : Env) : Prop :=
  (forall h p s, toolhead_move env h p s = None) /\
  (forall h, exists r, toolhead_register_lookahead_callback env h = Ok r) /\
  (forall h, exists f, toolhead_lookahead_flush env h = Ok f) /\
  (forall h w, reactor_pause env h w = None).

(** The error answers and notifications in a history. *)
Fixpoint reports_in (h : list event) : list event :=
  match h with
  | [] => []
  | RespondError msg :: h' => RespondError msg :: reports_in h'
  | SendEvent name :: h' => SendEvent name :: reports_in h'
  | _ :: h' => reports_in h'
  end.

(** A stored output that is a number lies between 0 and 1. *)
Definition output_in_unit (v : option value) : Prop :=
  match v with
  | Some (PyFloat o) => 0 <= o /\ o <= 1
  | _ => True
  end.

(** The target duty cycle and the setpoint of the feed rate controller
    agree. *)
Definition synced (self : PowerCore) : Prop :=
  target_duty_cycle self = setpoint (feedrate_pid_controller self).

(** A tool head whose [move] always ends in the given exception, as when the
    patched [check_move] fails inside it. *)
Definition faulty (x : exn) : Env :=
  {| toolhead_get_position := fun _ => (0, 0, 0, 0);
     toolhead_geometry := axis_geometry;
     toolhead_move := fun _ _ _ => Some x;
     toolhead_register_lookahead_callback := fun _ => Ok None;
     toolhead_lookahead_flush := fun _ => Ok None;
     toolhead_get_last_move_time := fun _ => 0;
     reactor_pause := fun _ _ => None;
     kin_check_move := fun _ => None |}.

(** The direction ratios [axes_r] of the move from where the tool head is to
    [newpos], and the length [actual_move_length] of one segment of it. *)
Definition direction (env : Env) (h : list event) (newpos : position)
  : list Q :=
  axes_r (Move_new (toolhead_geometry env) (position_of env h) newpos).

Definition segment_length (env : Env) (h : list event) (newpos : position)
    (dist : Q) : Q :=
  displacement env h newpos /
  inject_Z (py_ceil (displacement env h newpos / dist)).

(** The point reached from [start] by [len] along [vec], each coordinate
    rounded to three decimals: one coordinate per entry of [vec]. *)
Definition rounded_step (len : Q) (vec : list Q) (start : position)
  : position :=
  map (fun cv => py_round3 (fst cv + len * snd cv)) (combine start vec).

(** Sub-move [m] goes from its start by [len] along [vec], up to the
    rounding of each coordinate: its end has one coordinate per entry of
    [vec], and each lies within 0.0005 of the coordinate of the start moved
    by [len] times the entry. *)
Definition steps_by (len : Q) (vec : list Q) (m : SubMove) : Prop :=
  List.length (sm_end m) = List.length vec /\
  forall j v,
    nth_error vec j = Some v ->
    exists c s,
      nth_error (sm_start m) j = Some c /\
      nth_error (sm_end m) j = Some s /\
      c + len * v - (1 # 2000) <= s /\ s <= c + len * v + (1 # 2000).

(** The wake times handed to [reactor.pause]. *)
Fixpoint pauses_in (h : list event) : list Q :=
  match h with
  | [] => []
  | ReactorPause waketime :: h' => waketime :: pauses_in h'
  | _ :: h' => pauses_in h'
  end.

(** * Properties *)

(** ** Numerics *)

Lemma Qlt_bool_iff (a b : Q) : Qlt_bool a b = true <-> a < b.
Proof.
  unfold Qlt_bool. rewrite negb_true_iff.
  split; intro H.
  - apply Qnot_le_lt. intro Hle. apply Qle_bool_iff in Hle. congruence.
  - destruct (Qle_bool b a) eqn:E; [| reflexivity].
    apply Qle_bool_iff in E. exfalso. apply (Qlt_not_le _ _ H E).
Qed.

Lemma Qlt_bool_false_iff (a b : Q) : Qlt_bool a b = false <-> b <= a.
Proof.
  unfold Qlt_bool. rewrite negb_false_iff. apply Qle_bool_iff.
Qed.

Lemma py_truediv_ok (a b : Q) : ~ b == 0 -> py_truediv a b = Ok (a / b).
Proof.
  intro H. unfold py_truediv.
  destruct (Qeq_bool b 0) eqn:E; [| reflexivity].
  apply Qeq_bool_iff in E. contradiction.
Qed.

Lemma py_truediv_zero (a b : Q) :
  b == 0 -> py_truediv a b = Raise ZeroDivisionError.
Proof.
  intro H. unfold py_truediv.
  apply Qeq_bool_iff in H. now rewrite H.
Qed.

Lemma py_ceil_positive (d l : Q) : 0 < d -> 0 < l -> (1 <= py_ceil (d / l))%Z.
Proof.
  intros Hd Hl. unfold py_ceil.
  assert (Hq : 0 < d / l).
  { unfold Qdiv. apply Qmult_lt_0_compat; [assumption |].
    now apply Qinv_lt_0_compat. }
  pose proof (Qle_ceiling (d / l)) as Hc.
  assert (H0 : inject_Z 0 < inject_Z (Qceiling (d / l))).
  { eapply Qlt_le_trans; [exact Hq | exact Hc]. }
  rewrite <- Zlt_Qlt in H0. lia.
Qed.

Lemma py_ceil_zero (d l : Q) : d == 0 -> py_ceil (d / l) = 0%Z.
Proof.
  intro H. unfold py_ceil.
  assert (E : d / l == inject_Z 0).
  { rewrite H. unfold Qdiv. now rewrite Qmult_0_l. }
  rewrite (Qceiling_comp _ _ E). apply Qceiling_Z.
Qed.

Lemma py_round3_three_decimals (x : Q) : three_decimals (py_round3 x).
Proof. now exists (py_round (x * 1000)). Qed.

(** ** The segment generator *)

Lemma py_last_snoc {A} (l : list A) (a : A) : py_last (l ++ [a]) = Ok a.
Proof.
  induction l as [| b l IH]; [reflexivity |].
  simpl. rewrite IH. destruct (l ++ [a]) eqn:E; [| reflexivity].
  destruct l; discriminate.
Qed.

Lemma py_last_cons {A} (b : A) (l : list A) :
  l <> [] -> py_last (b :: l) = py_last l.
Proof. destruct l; [congruence | reflexivity]. Qed.

Lemma advance_from_ok (start : position) (len : Q) (vec : list Q) :
  forall i, (i + List.length vec <= List.length start)%nat ->
  exists stop,
    advance_from i start len vec = Ok stop /\
    List.length stop = List.length vec /\
    Forall three_decimals stop.
Proof.
  induction vec as [| v vs IH]; intros i Hlen.
  - exists []. repeat split. constructor.
  - simpl in Hlen. simpl. unfold py_index.
    destruct (nth_error start i) as [c |] eqn:Ec.
    + destruct (IH (S i)) as (rest & Hr & Hl & Hd); [lia |].
      simpl. rewrite Hr. simpl.
      eexists. split; [reflexivity |]. split; [simpl; lia |].
      constructor; [apply py_round3_three_decimals | assumption].
    + apply nth_error_None in Ec. lia.
Qed.

Lemma linked_snoc (p : position) (l : list SubMove) (m last : SubMove) :
  linked p l -> py_last l = Ok last -> sm_start m = sm_end last ->
  linked p (l ++ [m]).
Proof.
  revert p. induction l as [| a l IH]; intros p Hl Hlast Hm.
  - discriminate.
  - destruct Hl as [Ha Hl]. simpl. split; [assumption |].
    destruct l as [| b l'].
    + simpl in *. inversion Hlast; subst. auto.
    + apply IH; assumption.
Qed.

(** The loop extends a path by [count] steps of rounded points. *)
Lemma split_loop_ok (len : Q) (vec : list Q) (speed : Q) (p : position) :
  forall count acc last,
    linked p acc -> py_last acc = Ok last ->
    List.length (sm_end last) = List.length vec ->
    Forall (fun m => sm_speed m = speed) acc ->
    Forall (fun m => Forall three_decimals (sm_end m)) acc ->
    exists l last',
      split_loop count acc len vec speed = Ok l /\
      List.length l = (List.length acc + count)%nat /\
      linked p l /\ py_last l = Ok last' /\
      Forall (fun m => sm_speed m = speed) l /\
      Forall (fun m => Forall three_decimals (sm_end m)) l.
Proof.
  induction count as [| count IH]; intros acc last Hlk Hlast Hlen Hsp Hdec.
  - exists acc, last. simpl. repeat split; auto.
  - simpl. rewrite Hlast. simpl.
    destruct (advance_from_ok (sm_end last) len vec 0) as (stop & Hs & Hl & Hd).
    { simpl. lia. }
    unfold advance. rewrite Hs. simpl.
    set (m := mkSubMove (sm_end last) stop speed).
    destruct (IH (acc ++ [m]) m) as (l & last' & Hrun & Hn & Hlk' & Hlast' & Hsp' & Hdec').
    + eapply linked_snoc; eauto.
    + apply py_last_snoc.
    + simpl. congruence.
    + apply Forall_app. split; [assumption | repeat constructor].
    + apply Forall_app. split; [assumption | repeat constructor; assumption].
    + exists l, last'. rewrite Hrun. repeat split; auto.
      rewrite Hn, length_app. simpl. lia.
Qed.

(** Overwriting the end of the last sub-move keeps the path, its length and
    its speeds, and touches no other end point. *)
Lemma set_last_end_ok (stop : position) (speed : Q) :
  forall l p last,
    linked p l -> py_last l = Ok last ->
    Forall (fun m => sm_speed m = speed) l ->
    exists l' last',
      set_last_end l stop = Ok l' /\
      List.length l' = List.length l /\
      linked p l' /\ py_last l' = Ok last' /\ sm_end last' = stop /\
      Forall (fun m => sm_speed m = speed) l' /\
      removelast l' = removelast l.
Proof.
  induction l as [| a l IH]; intros p last Hlk Hlast Hsp.
  - discriminate.
  - destruct l as [| b l'].
    + exists [mkSubMove (sm_start a) stop (sm_speed a)], (mkSubMove (sm_start a) stop (sm_speed a)).
      simpl in *. destruct Hlk as [Ha _]. inversion Hsp; subst.
      repeat split; auto.
    + destruct Hlk as [Ha Hlk]. inversion Hsp as [| ? ? Hsa Hsl]; subst.
      destruct (IH (sm_end a) last Hlk Hlast Hsl)
        as (l1 & last1 & Hrun & Hn & Hlk1 & Hlast1 & Hend & Hsp1 & Hrm).
      exists (a :: l1), last1.
      change (set_last_end (a :: b :: l') stop)
        with (rbind (set_last_end (b :: l') stop) (fun x => Ok (a :: x))).
      rewrite Hrun. simpl rbind.
      assert (Hne : l1 <> []).
      { intro E. subst l1. simpl in Hn. discriminate. }
      split; [reflexivity |].
      split; [simpl; simpl in Hn; lia |].
      split; [simpl; auto |].
      split; [rewrite py_last_cons; assumption |].
      split; [assumption |].
      split; [constructor; auto |].
      destruct l1 as [| c l1]; [congruence |].
      change (removelast (a :: c :: l1)) with (a :: removelast (c :: l1)).
      rewrite Hrm. reflexivity.
Qed.

Lemma removelast_Forall {A} (P : A -> Prop) (l : list A) :
  Forall P l -> Forall P (removelast l).
Proof.
  induction 1 as [| a l Ha Hl IH]; [constructor |].
  destruct l; [constructor |]. simpl. constructor; assumption.
Qed.

Lemma linked_nth (l : list SubMove) :
  forall p i a b,
    linked p l -> nth_error l i = Some a -> nth_error l (S i) = Some b ->
    sm_start b = sm_end a.
Proof.
  induction l as [| m l IH]; intros p i a b Hlk Ha Hb.
  - destruct i; discriminate.
  - destruct Hlk as [_ Hlk]. destruct i as [| i].
    + simpl in Ha. inversion Ha; subst.
      destruct l as [| c l]; [discriminate |].
      simpl in Hb. inversion Hb; subst. now destruct Hlk.
    + simpl in Ha. eapply IH; eauto.
Qed.

Lemma linked_head (p : position) (l : list SubMove) (m : SubMove) :
  linked p l -> nth_error l 0 = Some m -> sm_start m = p.
Proof.
  destruct l; [discriminate |]. simpl. intros [H _] E. now inversion E; subst.
Qed.

(** The generator on a move of positive displacement: it returns, and what
    it returns is a path from the start to the end of the move. *)
Lemma split_move_of_ok (mv : Move) (dist speed : Q) :
  0 < move_d mv -> 0 < dist ->
  (List.length (axes_r mv) <= List.length (start_pos mv))%nat ->
  exists l last,
    split_move_of mv dist speed = Ok l /\
    List.length l = Z.to_nat (py_ceil (move_d mv / dist)) /\
    linked (start_pos mv) l /\
    py_last l = Ok last /\ sm_end last = end_pos mv /\
    Forall (fun m => sm_speed m = speed) l /\
    Forall (fun m => Forall three_decimals (sm_end m)) (removelast l).
Proof.
  intros Hd Hdist Hlen. unfold split_move_of.
  rewrite py_truediv_ok by (intro E; rewrite E in Hdist; discriminate).
  simpl rbind.
  pose proof (py_ceil_positive _ _ Hd Hdist) as Hn.
  set (n := py_ceil (move_d mv / dist)) in *.
  rewrite py_truediv_ok.
  2:{ intro E. unfold Qeq in E. simpl in E. lia. }
  simpl rbind.
  destruct (advance_from_ok (start_pos mv) (move_d mv / inject_Z n)
              (axes_r mv) 0) as (stop & Hs & Hl & Hdec); [simpl; lia |].
  unfold advance at 1. rewrite Hs. simpl rbind.
  set (first := mkSubMove (start_pos mv) stop speed).
  assert (H1 : linked (start_pos mv) [first]) by (simpl; auto).
  assert (H2 : py_last [first] = Ok first) by reflexivity.
  assert (H3 : List.length (sm_end first) = List.length (axes_r mv))
    by exact Hl.
  assert (H4 : Forall (fun m => sm_speed m = speed) [first])
    by (repeat constructor).
  assert (H5 : Forall (fun m => Forall three_decimals (sm_end m)) [first])
    by (repeat constructor; exact Hdec).
  destruct (split_loop_ok (move_d mv / inject_Z n) (axes_r mv) speed
              (start_pos mv) (Z.to_nat (n - 1)) [first] first H1 H2 H3 H4 H5)
    as (l & last & Hrun & Hcount & Hlk & Hlast & Hsp & Hdc).
  rewrite Hrun. simpl rbind.
  destruct (set_last_end_ok (end_pos mv) speed l (start_pos mv) last
              Hlk Hlast Hsp)
    as (l' & last' & Hset & Hn' & Hlk' & Hlast' & Hend & Hsp' & Hrm).
  exists l', last'. rewrite Hset.
  split; [reflexivity |].
  split; [rewrite Hn', Hcount; simpl; lia |].
  split; [assumption |].
  split; [assumption |].
  split; [assumption |].
  split; [assumption |].
  rewrite Hrm. now apply removelast_Forall.
Qed.

(** A move without displacement makes the generator divide by zero. *)
Lemma split_move_of_zero (mv : Move) (dist speed : Q) :
  move_d mv == 0 -> 0 < dist ->
  split_move_of mv dist speed = Raise ZeroDivisionError.
Proof.
  intros Hd Hdist. unfold split_move_of.
  rewrite py_truediv_ok by (intro E; rewrite E in Hdist; discriminate).
  simpl rbind. rewrite (py_ceil_zero _ _ Hd).
  rewrite py_truediv_zero; reflexivity.
Qed.

Lemma nth_error_skipn_cons {A} (l : list A) :
  forall i c, nth_error l i = Some c -> skipn i l = c :: skipn (S i) l.
Proof.
  induction l as [| a l IH]; intros i c H.
  - destruct i; discriminate.
  - destruct i as [| i].
    + simpl in H. inversion H. reflexivity.
    + simpl in H. simpl. exact (IH i c H).
Qed.

(** The list comprehension of [split_move], in closed form. *)
Lemma advance_from_exact (start : position) (len : Q) (vec : list Q) :
  forall i stop,
    advance_from i start len vec = Ok stop ->
    stop = rounded_step len vec (skipn i start) /\
    List.length stop = List.length vec.
Proof.
  unfold rounded_step.
  induction vec as [| v vs IH]; intros i stop Hrun.
  - simpl in Hrun. inversion Hrun. rewrite combine_nil. split; reflexivity.
  - simpl in Hrun. unfold py_index in Hrun.
    destruct (nth_error start i) as [c |] eqn:Ec; [| discriminate].
    simpl in Hrun.
    destruct (advance_from (S i) start len vs) as [rest |] eqn:Er;
      [| discriminate].
    simpl in Hrun. inversion Hrun; subst stop. clear Hrun.
    destruct (IH (S i) rest Er) as [Hrest Hlen].
    rewrite (nth_error_skipn_cons start i c Ec). cbn [combine map fst snd].
    rewrite <- Hrest. split; [reflexivity | simpl; now rewrite Hlen].
Qed.

Lemma advance_exact (start : position) (len : Q) (vec : list Q)
    (stop : position) :
  advance start len vec = Ok stop ->
  stop = rounded_step len vec start /\ List.length stop = List.length vec.
Proof. exact (advance_from_exact start len vec 0 stop). Qed.

(** What holds of every sub-move the comprehension makes holds of every
    sub-move of the loop. *)
Lemma split_loop_Forall (P : SubMove -> Prop) (len : Q) (vec : list Q)
    (speed : Q) :
  (forall start stop,
      advance start len vec = Ok stop -> P (mkSubMove start stop speed)) ->
  forall count acc l,
    split_loop count acc len vec speed = Ok l -> Forall P acc -> Forall P l.
Proof.
  intro Hstep.
  induction count as [| count IH]; intros acc l Hrun Hacc.
  - simpl in Hrun. inversion Hrun; subst. exact Hacc.
  - simpl in Hrun.
    destruct (py_last acc) as [prev |]; [| discriminate]. simpl in Hrun.
    destruct (advance (sm_end prev) len vec) as [stop |] eqn:Es;
      [| discriminate].
    simpl in Hrun. apply (IH _ _ Hrun).
    apply Forall_app. split; [exact Hacc |].
    constructor; [| constructor]. now apply Hstep.
Qed.

Lemma set_last_end_removelast (stop : position) :
  forall l l', set_last_end l stop = Ok l' -> removelast l' = removelast l.
Proof.
  induction l as [| a l IH]; intros l' Hrun; [discriminate |].
  destruct l as [| b l0].
  - simpl in Hrun. inversion Hrun. reflexivity.
  - change (set_last_end (a :: b :: l0) stop)
      with (rbind (set_last_end (b :: l0) stop) (fun x => Ok (a :: x)))
      in Hrun.
    destruct (set_last_end (b :: l0) stop) as [l1 |] eqn:E; [| discriminate].
    simpl in Hrun. inversion Hrun; subst l'.
    pose proof (IH l1 eq_refl) as Hrm.
    destruct l1 as [| c l1].
    + destruct l0; simpl in E; [discriminate |].
      destruct (set_last_end _ stop); discriminate.
    + change (removelast (a :: c :: l1)) with (a :: removelast (c :: l1)).
      rewrite Hrm. reflexivity.
Qed.

(** And of every sub-move that [split_move] returns, the last one, whose
    end is overwritten, apart. *)
Lemma split_move_of_Forall (P : SubMove -> Prop) (mv : Move)
    (dist speed : Q) (l : list SubMove) :
  (forall start stop,
      advance start
        (move_d mv / inject_Z (py_ceil (move_d mv / dist))) (axes_r mv) =
        Ok stop ->
      P (mkSubMove start stop speed)) ->
  split_move_of mv dist speed = Ok l ->
  Forall P (removelast l).
Proof.
  intros Hstep Hsplit. unfold split_move_of in Hsplit.
  destruct (py_truediv (move_d mv) dist) as [q |] eqn:Eq; [| discriminate].
  simpl in Hsplit.
  assert (Hq : q = move_d mv / dist).
  { unfold py_truediv in Eq.
    destruct (Qeq_bool dist 0); [discriminate |]. now inversion Eq. }
  subst q.
  set (n := py_ceil (move_d mv / dist)) in *.
  destruct (py_truediv (move_d mv) (inject_Z n)) as [len |] eqn:El;
    [| discriminate].
  simpl in Hsplit.
  assert (Hlen : len = move_d mv / inject_Z n).
  { unfold py_truediv in El.
    destruct (Qeq_bool (inject_Z n) 0); [discriminate |]. now inversion El. }
  subst len.
  destruct (advance (start_pos mv) (move_d mv / inject_Z n) (axes_r mv))
    as [stop |] eqn:Ea; [| discriminate].
  simpl in Hsplit.
  destruct (split_loop _ _ _ _ _) as [l0 |] eqn:Eloop; [| discriminate].
  simpl in Hsplit.
  rewrite (set_last_end_removelast _ _ _ Hsplit).
  apply removelast_Forall.
  apply (split_loop_Forall P _ _ _ Hstep _ _ _ Eloop).
  constructor; [| constructor]. now apply Hstep.
Qed.

Lemma get_position_connected (env : Env) (self : PowerCore) (h : list event)
    (th : ToolHead) :
  toolhead self = Some th ->
  get_position env self h = (self, h, Ok (position_of env h)).
Proof.
  intro Hth. unfold get_position, position_of, bind, getattr, the_tool, calls.
  rewrite Hth. simpl.
  destruct (toolhead_get_position env h) as [[[x y] z] e]. reflexivity.
Qed.

Lemma Move_new_fields (geo : geometry) (pos newpos : position) :
  start_pos (Move_new geo pos newpos) = pos /\
  end_pos (Move_new geo pos newpos) = newpos /\
  move_d (Move_new geo pos newpos) = fst (geo pos newpos) /\
  List.length (axes_r (Move_new geo pos newpos)) = 4%nat.
Proof.
  unfold Move_new.
  destruct (geo pos newpos) as [d [[[rx ry] rz] re]]. simpl. auto.
Qed.

Lemma position_of_length (env : Env) (h : list event) :
  List.length (position_of env h) = 4%nat.
Proof.
  unfold position_of.
  destruct (toolhead_get_position env h) as [[[x y] z] e]. reflexivity.
Qed.

Lemma split_move_unfold (env : Env) (self : PowerCore) (h : list event)
    (th : ToolHead) (newpos : position) (speed : Q) :
  toolhead self = Some th ->
  split_move env newpos speed self h =
  (self, h,
   split_move_of (Move_new (toolhead_geometry env) (position_of env h) newpos)
     (move_split_dist self) speed).
Proof.
  intro Hth. unfold split_move, bind.
  rewrite (get_position_connected env self h th Hth). reflexivity.
Qed.

(** For a move of positive displacement [split_move] returns
    [ceil(d / L)] sub-moves, at least one, and that number is a function of
    the displacement and the segment length alone. *)
Lemma split_move_count (env : Env) (self : PowerCore) (h : list event)
    (th : ToolHead) (newpos : position) (speed : Q) :
  toolhead self = Some th ->
  0 < move_split_dist self ->
  0 < displacement env h newpos ->
  exists segs,
    split_move env newpos speed self h = (self, h, Ok segs) /\
    Z.of_nat (List.length segs) =
      py_ceil (displacement env h newpos / move_split_dist self) /\
    (1 <= List.length segs)%nat.
Proof.
  intros Hth Hdist Hd.
  rewrite (split_move_unfold env self h th newpos speed Hth).
  destruct (Move_new_fields (toolhead_geometry env) (position_of env h) newpos)
    as (Hs & He & Hmd & Hr).
  destruct (split_move_of_ok
              (Move_new (toolhead_geometry env) (position_of env h) newpos)
              (move_split_dist self) speed)
    as (l & last & Hrun & Hlen & _).
  - rewrite Hmd. exact Hd.
  - exact Hdist.
  - rewrite Hs, Hr, position_of_length. lia.
  - exists l. rewrite Hrun. rewrite Hmd in Hlen.
    pose proof (py_ceil_positive _ _ Hd Hdist) as Hn.
    unfold displacement in *. split; [reflexivity |]. split; lia.
Qed.

(** The same for every move that goes nowhere. *)
Lemma split_move_zero (env : Env) (self : PowerCore) (h : list event)
    (th : ToolHead) (newpos : position) (speed : Q) :
  toolhead self = Some th ->
  0 < move_split_dist self ->
  displacement env h newpos == 0 ->
  split_move env newpos speed self h = (self, h, Raise ZeroDivisionError).
Proof.
  intros Hth Hdist Hd.
  rewrite (split_move_unfold env self h th newpos speed Hth).
  rewrite split_move_of_zero; [reflexivity | | exact Hdist].
  destruct (Move_new_fields (toolhead_geometry env) (position_of env h) newpos)
    as (_ & _ & Hmd & _).
  rewrite Hmd. exact Hd.
Qed.

(** Two requests of equal displacement are cut into equally many
    sub-moves, whatever their directions and end points. *)
Lemma split_move_count_by_displacement (env1 env2 : Env)
    (self : PowerCore) (h1 h2 : list event) (th : ToolHead)
    (newpos1 newpos2 : position) (speed1 speed2 : Q)
    (segs1 segs2 : list SubMove) :
  toolhead self = Some th ->
  0 < move_split_dist self ->
  0 < displacement env1 h1 newpos1 ->
  displacement env2 h2 newpos2 = displacement env1 h1 newpos1 ->
  split_move env1 newpos1 speed1 self h1 = (self, h1, Ok segs1) ->
  split_move env2 newpos2 speed2 self h2 = (self, h2, Ok segs2) ->
  List.length segs1 = List.length segs2.
Proof.
  intros Hth Hdist Hd Heq H1 H2.
  destruct (split_move_count env1 self h1 th newpos1 speed1 Hth Hdist Hd)
    as (l1 & E1 & N1 & _).
  assert (Hd2 : 0 < displacement env2 h2 newpos2) by (rewrite Heq; exact Hd).
  destruct (split_move_count env2 self h2 th newpos2 speed2 Hth Hdist Hd2)
    as (l2 & E2 & N2 & _).
  rewrite H1 in E1. rewrite H2 in E2.
  inversion E1; inversion E2; subst l1 l2.
  rewrite Heq in N2. lia.
Qed.

(** C1, at a move that goes nowhere: with a segment length of 2, scaling
    enabled and the tool head at the origin, a move to the origin is not cut
    into one segment: [split_move], and [move] with it, raises
    [ZeroDivisionError] and nothing is sent to the tool head. *)
Theorem split_move_zero_displacement :
  split_move (bench (0, 0, 0, 0) None) [0; 0; 0; 0] 50 connected_coarse [] =
    (connected_coarse, [], Raise ZeroDivisionError) /\
  move (bench (0, 0, 0, 0) None) [0; 0; 0; 0] 50 connected_coarse [] =
    (connected_coarse, [], Raise ZeroDivisionError).
Proof. split; reflexivity. Qed.

(** What holds of every sub-move the comprehension makes holds of every
    sub-move but the last that the method [split_move] returns. *)
Lemma split_move_Forall (P : SubMove -> Prop) (env : Env)
    (self self' : PowerCore) (h h' : list event) (newpos : position)
    (speed : Q) (segs : list SubMove) :
  split_move env newpos speed self h = (self', h', Ok segs) ->
  (forall start stop,
      advance start (segment_length env h newpos (move_split_dist self))
        (direction env h newpos) = Ok stop ->
      P (mkSubMove start stop speed)) ->
  Forall P (removelast segs).
Proof.
  intros Hrun Hstep.
  destruct (toolhead self) as [th |] eqn:Hth.
  2:{ unfold split_move, get_position, bind, getattr, the_tool, raise in Hrun.
      rewrite Hth in Hrun. discriminate. }
  rewrite (split_move_unfold env self h th newpos speed Hth) in Hrun.
  inversion Hrun as [[Hs Hh Hsplit]]. clear Hrun. subst self' h'.
  destruct (Move_new_fields (toolhead_geometry env) (position_of env h) newpos)
    as (_ & _ & Hmd & _).
  refine (split_move_of_Forall P _ _ _ _ _ Hsplit).
  intros start stop Hadv. apply Hstep.
  unfold segment_length, direction, displacement.
  rewrite <- Hmd. exact Hadv.
Qed.

(** C2: for a move of positive displacement and a positive segment length,
    [split_move] returns a list of sub-moves whose first start is the
    position of the tool head, whose last end is the requested end position,
    in which every sub-move starts where the one before it ends, all carry
    the commanded speed, and every end point but the last is its start moved
    by one segment length along the four direction ratios of the move, each
    of the four coordinates rounded to three decimals; their number is
    [ceil(d / L)]. *)
Theorem split_move_reconstructs (env : Env) (self : PowerCore)
    (h : list event) (th : ToolHead) (newpos : position) (speed : Q) :
  toolhead self = Some th ->
  0 < move_split_dist self ->
  0 < displacement env h newpos ->
  exists segs first last,
    split_move env newpos speed self h = (self, h, Ok segs) /\
    nth_error segs 0 = Some first /\ sm_start first = position_of env h /\
    py_last segs = Ok last /\ sm_end last = newpos /\
    (forall i a b,
        nth_error segs i = Some a -> nth_error segs (S i) = Some b ->
        sm_start b = sm_end a) /\
    Forall (fun m => sm_speed m = speed) segs /\
    Forall (fun m => Forall three_decimals (sm_end m)) (removelast segs) /\
    List.length (direction env h newpos) = 4%nat /\
    Forall
      (fun m =>
         sm_end m =
           rounded_step (segment_length env h newpos (move_split_dist self))
             (direction env h newpos) (sm_start m) /\
         List.length (sm_end m) = 4%nat)
      (removelast segs) /\
    Z.of_nat (List.length segs) =
      py_ceil (displacement env h newpos / move_split_dist self).
Proof.
  intros Hth Hdist Hd.
  pose proof (split_move_unfold env self h th newpos speed Hth) as Hunfold.
  destruct (Move_new_fields (toolhead_geometry env) (position_of env h) newpos)
    as (Hs & He & Hmd & Hr).
  destruct (split_move_of_ok
              (Move_new (toolhead_geometry env) (position_of env h) newpos)
              (move_split_dist self) speed)
    as (l & last & Hrun & Hlen & Hlk & Hlast & Hend & Hsp & Hdec).
  - rewrite Hmd. exact Hd.
  - exact Hdist.
  - rewrite Hs, Hr, position_of_length. lia.
  - rewrite Hrun in Hunfold.
    rewrite Hs in Hlk. rewrite He in Hend. rewrite Hmd in Hlen.
    pose proof (py_ceil_positive _ _ Hd Hdist) as Hn.
    destruct l as [| first l]; [discriminate |].
    exists (first :: l), first, last.
    split; [exact Hunfold |].
    split; [reflexivity |].
    split; [now destruct Hlk |].
    split; [assumption |].
    split; [assumption |].
    split; [intros i a b; now apply linked_nth with (p := position_of env h) |].
    split; [assumption |].
    split; [assumption |].
    split; [exact Hr |].
    split.
    + apply (split_move_Forall _ env self self h h newpos speed (first :: l)
               Hunfold).
      intros start stop Hadv.
      destruct (advance_exact _ _ _ _ Hadv) as [E L]. simpl.
      split; [exact E |]. rewrite L. exact Hr.
    + unfold displacement in *. rewrite Hlen. lia.
Qed.

(** The five equal segments of the end-to-end example: 10 mm along X at
    segment length 2. *)
Lemma split_move_reconstructs_witness :
  exists segs first last,
    split_move (bench (0, 0, 0, 0) None) [10; 0; 0; 0] 50
      connected_coarse [] =
      (connected_coarse, [], Ok segs) /\
    nth_error segs 0 = Some first /\
    sm_start first = position_of (bench (0, 0, 0, 0) None) [] /\
    py_last segs = Ok last /\ sm_end last = [10; 0; 0; 0] /\
    (forall i a b,
        nth_error segs i = Some a -> nth_error segs (S i) = Some b ->
        sm_start b = sm_end a) /\
    Forall (fun m => sm_speed m = 50) segs /\
    Forall (fun m => Forall three_decimals (sm_end m)) (removelast segs) /\
    List.length (direction (bench (0, 0, 0, 0) None) [] [10; 0; 0; 0]) =
      4%nat /\
    Forall
      (fun m =>
         sm_end m =
           rounded_step
             (segment_length (bench (0, 0, 0, 0) None) [] [10; 0; 0; 0]
                (move_split_dist connected_coarse))
             (direction (bench (0, 0, 0, 0) None) [] [10; 0; 0; 0])
             (sm_start m) /\
         List.length (sm_end m) = 4%nat)
      (removelast segs) /\
    Z.of_nat (List.length segs) =
      py_ceil (displacement (bench (0, 0, 0, 0) None) [] [10; 0; 0; 0] /
               move_split_dist connected_coarse).
Proof.
  apply (split_move_reconstructs (bench (0, 0, 0, 0) None)
           connected_coarse [] the_toolhead
           [10; 0; 0; 0] 50).
  - reflexivity.
  - reflexivity.
  - reflexivity.
Defined.

(** ** Construction *)

(** C3, as amended: after construction feed scaling is disabled and the
    wire tension loop is enabled. *)
Theorem init_flags (c : Config) (now : Q) :
  scaling_enabled (PowerCore_init c now) = false /\
  wire_tension_loop_enabled (PowerCore_init c now) = true.
Proof. split; reflexivity. Qed.

(** C3 as stated fails on the object built from the default options: its
    wire tension loop is enabled, and it has no attribute [output] instead of
    an output of 0. *)
Lemma init_flags_counterexample :
  ~ (scaling_enabled (PowerCore_init default_config 0) = false /\
     wire_tension_loop_enabled (PowerCore_init default_config 0) = false /\
     output (PowerCore_init default_config 0) = Some (PyFloat 0)).
Proof. intros (_ & H & _). discriminate H. Qed.

Lemma init_output_absent (c : Config) (now : Q) :
  output (PowerCore_init c now) = None.
Proof. reflexivity. Qed.

Lemma init_feed_range (c : Config) (now : Q) :
  config_valid c ->
  min_feedrate (PowerCore_init c now) <= max_feedrate (PowerCore_init c now).
Proof. intros (_ & _ & _ & H & _). exact H. Qed.

(** ** The feed range *)

Lemma set_feedrates_ordered (self : PowerCore) (h : list event)
    (MIN MAX : option Q) :
  min_feedrate self <= max_feedrate self ->
  min_feedrate (object_of (cmd_set_powercore_feedrates MIN MAX self h)) <=
  max_feedrate (object_of (cmd_set_powercore_feedrates MIN MAX self h)).
Proof.
  intro Hinv.
  unfold cmd_set_powercore_feedrates, bind, getattr, setattr, emit.
  destruct (Qlt_bool _ _) eqn:E; simpl; [exact Hinv |].
  now apply Qlt_bool_false_iff in E.
Qed.

(** C4: a request with min above max is answered with an error and leaves
    the object as it was; any other request stores both values; and either
    way the stored pair stays ordered. *)
Theorem set_feedrates_checked (self : PowerCore) (h : list event)
    (MIN MAX : option Q) :
  min_feedrate self <= max_feedrate self ->
  let min_req := get_float MIN (min_feedrate self) in
  let max_req := get_float MAX (max_feedrate self) in
  let r := cmd_set_powercore_feedrates MIN MAX self h in
  (max_req < min_req ->
     exists msg, r = (self, h ++ [RespondError msg], Ok tt)) /\
  (min_req <= max_req ->
     min_feedrate (object_of r) = min_req /\
     max_feedrate (object_of r) = max_req /\
     exists msg, history_of r = h ++ [RespondInfo msg]) /\
  min_feedrate (object_of r) <= max_feedrate (object_of r).
Proof.
  intros Hinv min_req max_req r.
  unfold r, cmd_set_powercore_feedrates, bind, getattr, setattr, emit.
  fold min_req max_req.
  destruct (Qlt_bool max_req min_req) eqn:E.
  - apply Qlt_bool_iff in E. split; [| split].
    + intros _. eexists. reflexivity.
    + intro Hle. exfalso. exact (Qlt_not_le _ _ E Hle).
    + exact Hinv.
  - apply Qlt_bool_false_iff in E. split; [| split].
    + intro Hlt. exfalso. exact (Qlt_not_le _ _ Hlt E).
    + intros _. simpl. repeat split. eexists. reflexivity.
    + simpl. exact E.
Qed.


(** A rejected request, MIN=200 against a maximum of 120. *)
Lemma set_feedrates_checked_witness :
  (exists msg,
      cmd_set_powercore_feedrates (Some 200) None connected_default [] =
      (connected_default, [RespondError msg], Ok tt)) /\
  min_feedrate
    (object_of (cmd_set_powercore_feedrates (Some 200) None
                  connected_default [])) <=
  max_feedrate
    (object_of (cmd_set_powercore_feedrates (Some 200) None
                  connected_default [])).
Proof.
  assert (H0 : min_feedrate connected_default <= max_feedrate connected_default)
    by (unfold Qle; simpl; lia).
  destruct (set_feedrates_checked connected_default [] (Some 200) None H0)
    as (Hrej & _ & Hord).
  split.
  - apply Hrej. reflexivity.
  - exact Hord.
Defined.

(** ** Enabling the loops *)

(** Unfolding of the plumbing of methods. *)
Ltac run_method :=
  unfold bind, getattr, setattr, emit, call, ask, lift, ret, raise, calls,
    the_tool, catch_command_error; simpl.



(** Resetting forgets the integral term and the last error. *)
Lemma PID_reset_with_state (p : PID) (i e : Q) :
  PID_reset (PID_with_state p i e) = PID_reset p.
Proof. reflexivity. Qed.





(** ** Scaling disabled *)

(** C6: with scaling disabled a move request is one call of the tool head,
    with the requested end position and speed, whatever the stored output
    is and wherever the tool head stands; the hook [check_move] stops after
    the kinematic check; and a duty-cycle sample changes nothing. *)
Theorem disabled_passes_through (env : Env) (self : PowerCore)
    (h : list event) (th : ToolHead) (newpos : position) (speed : Q)
    (now duty_cycle : Q) :
  scaling_enabled self = false ->
  toolhead self = Some th ->
  move env newpos speed self h =
    (self, h ++ [ToolheadMove newpos speed],
     match toolhead_move env h newpos speed with
     | None => Ok tt
     | Some x => Raise x
     end) /\
  (forall v,
      history_of (move env newpos speed (set_output v self) h) =
      h ++ [ToolheadMove newpos speed]) /\
  check_move env self h =
    (self, h ++ [KinCheckMove],
     match kin_check_move env h with
     | None => Ok tt
     | Some x => Raise x
     end) /\
  pwm_in_callback now duty_cycle self h = (self, h, Ok tt).
Proof.
  intros Hoff Hth.
  split; [| split; [| split]].
  - unfold move. run_method. rewrite Hoff, Hth. simpl.
    destruct (toolhead_move env h newpos speed); reflexivity.
  - intro v. unfold move, history_of. run_method.
    rewrite Hoff. simpl. rewrite Hth. unfold ret.
    destruct (toolhead_move env h newpos speed); reflexivity.
  - unfold check_move. run_method.
    destruct (kin_check_move env h); [reflexivity |].
    rewrite Hoff. reflexivity.
  - unfold pwm_in_callback. run_method. rewrite Hoff. reflexivity.
Qed.

(** The end-to-end example: with scaling disabled, [move((10,0,0,0), 50)]
    is forwarded as it is. *)
Lemma disabled_passes_through_witness :
  move (bench (0, 0, 0, 0) None) [10; 0; 0; 0] 50 connected_default [] =
  (connected_default, [ToolheadMove [10; 0; 0; 0] 50], Ok tt).
Proof.
  apply (proj1 (disabled_passes_through (bench (0, 0, 0, 0) None)
                  connected_default [] the_toolhead [10; 0; 0; 0] 50 0 0
                  eq_refl eq_refl)).
Defined.

(** With scaling disabled a move that goes nowhere passes through as well:
    the generator, which would raise on it, is not run. *)
Lemma disabled_move_skips_the_generator :
  move (bench (0, 0, 0, 0) None) [0; 0; 0; 0] 50 connected_default [] =
    (connected_default, [ToolheadMove [0; 0; 0; 0] 50], Ok tt) /\
  result_of (split_move (bench (0, 0, 0, 0) None) [0; 0; 0; 0] 50
               connected_default []) = Raise ZeroDivisionError.
Proof. split; reflexivity. Qed.

(** ** The stored output *)

(** Case analysis on whatever a method branches on next. *)
Ltac branch :=
  match goal with
  | |- context [match ?x with _ => _ end] =>
      lazymatch x with
      | context [match _ with _ => _ end] => fail
      | _ => destruct x eqn:?
      end
  end.

Ltac branches :=
  repeat (simpl; try branch); simpl; try reflexivity; try congruence.

Lemma submit_object (env : Env) (m : SubMove) (self : PowerCore)
    (h : list event) :
  object_of (submit env m self h) = self.
Proof. unfold submit, object_of. run_method. branches. Qed.

Lemma execute_moves_frame (env : Env) (moves : list SubMove) :
  forall self h,
    forget_processing (object_of (execute_moves env moves self h)) =
    forget_processing self.
Proof.
  induction moves as [| m moves IH]; intros self h; [reflexivity |].
  simpl. unfold bind at 1 2. unfold setattr at 1. unfold catch_command_error.
  pose proof (submit_object env m (set_processing_moves (Some true) self) h)
    as Hobj.
  destruct (submit env m (set_processing_moves (Some true) self) h)
    as [[self' h'] r].
  unfold object_of in Hobj. simpl in Hobj. subst self'.
  destruct r as [[] | e].
  - rewrite IH. reflexivity.
  - destruct e; reflexivity.
Qed.

Lemma move_frame (env : Env) (newpos : position) (speed : Q)
    (self : PowerCore) (h : list event) :
  forget_processing (object_of (move env newpos speed self h)) =
  forget_processing self.
Proof.
  unfold move, bind at 1, getattr at 1.
  destruct (scaling_enabled self).
  - unfold split_move, get_position. run_method.
    destruct (toolhead self); simpl; [| reflexivity].
    destruct (toolhead_get_position env h) as [[[x y] z] e]. simpl.
    destruct (split_move_of _ _ _) as [l |]; [| reflexivity].
    apply execute_moves_frame.
  - run_method. destruct (toolhead self); simpl; [| reflexivity].
    destruct (toolhead_move env h newpos speed); reflexivity.
Qed.

Ltac unfold_methods :=
  unfold run_op, _handle_connect, wire_tension_callback, cmd_SET_WIRE_FEED,
    cmd_SET_WIRE_TENSION_TARGET, cmd_ENABLE_WIRE_TENSION_LOOP,
    cmd_RESET_WIRE_TENSION_PID, pwm_in_callback, cmd_set_powercore_feedrates,
    cmd_reset_pid, cmd_set_target_duty_cycle, cmd_set_pid_params,
    cmd_enable_scaling, cmd_disable_scaling, enable_scaling, disable_scaling,
    check_move, scale_move, WireMover_set_speed.

(** No operation but a duty-cycle sample taken while scaling is enabled
    assigns the attribute [output]. *)
Lemma run_op_output (env : Env) (o : op) (self : PowerCore) (h : list event) :
  match o with
  | OpPwmIn _ _ => scaling_enabled self = false
  | _ => True
  end ->
  output (object_of (run_op env o self h)) = output self.
Proof.
  intro Hq.
  destruct o as [ | now data | speed | target | enable | | now duty
                | MIN MAX | | d | KP KI KD | | | | newpos speed];
    try (unfold_methods; unfold object_of; run_method; branches; fail).
  - unfold_methods; unfold object_of. run_method. rewrite Hq. reflexivity.
  - exact (f_equal output (move_frame env newpos speed self h)).
Qed.


Lemma scale_move_reads (self : PowerCore) (h : list event) (o : Q) :
  output self = Some (PyFloat o) ->
  scale_move self h =
  (self,
   h ++ [MoveSetSpeed
           ((min_feedrate self + o * (max_feedrate self - min_feedrate self))
            / 60)
           (adjustment_accel self)],
   Ok tt).
Proof. intro H. unfold scale_move. run_method. rewrite H. reflexivity. Qed.





(** ** Executing the sub-moves *)

Lemma moves_in_app (a b : list event) :
  moves_in (a ++ b) = moves_in a ++ moves_in b.
Proof.
  induction a as [| e a IH]; [reflexivity |].
  destruct e; simpl; rewrite IH; reflexivity.
Qed.

(** A sub-move that returned or raised a command error was handed to the
    tool head exactly once, and nothing already in the history was
    touched. *)
Lemma submit_history (env : Env) (m : SubMove) (self self' : PowerCore)
    (h h' : list event) (r : result unit) :
  submit env m self h = (self', h', r) ->
  (r = Ok tt \/ exists msg, r = Raise (CommandError msg)) ->
  exists tail,
    h' = h ++ ToolheadMove (sm_end m) (sm_speed m) :: tail /\
    moves_in tail = [].
Proof.
  unfold submit. run_method. intros Hrun Hr.
  destruct (toolhead self) as [th |]; simpl in Hrun.
  2:{ inversion Hrun; subst. destruct Hr as [Hr | [msg Hr]]; discriminate. }
  destruct (toolhead_move env h (sm_end m) (sm_speed m)); simpl in Hrun.
  { inversion Hrun; subst. exists []. split; reflexivity. }
  destruct (toolhead_register_lookahead_callback env _) as [reg |];
    simpl in Hrun.
  2:{ inversion Hrun; subst. exists [RegisterLookaheadCallback].
      rewrite <- app_assoc. split; reflexivity. }
  destruct (toolhead_lookahead_flush env _) as [fl |]; simpl in Hrun.
  2:{ inversion Hrun; subst.
      exists [RegisterLookaheadCallback; LookaheadFlush].
      repeat rewrite <- app_assoc. split; reflexivity. }
  destruct (match fl with Some t => Some t | None => reg end) as [t |].
  2:{ inversion Hrun; subst.
      exists [RegisterLookaheadCallback; LookaheadFlush].
      repeat rewrite <- app_assoc. split; reflexivity. }
  destruct (Qeq_bool (t - move_overlap_time self) 0).
  { inversion Hrun; subst.
    exists [RegisterLookaheadCallback; LookaheadFlush].
    repeat rewrite <- app_assoc. split; reflexivity. }
  exists [RegisterLookaheadCallback; LookaheadFlush;
          ReactorPause (t - move_overlap_time self)].
  destruct (reactor_pause env _ _); inversion Hrun; subst;
    repeat rewrite <- app_assoc; split; reflexivity.
Qed.

Lemma all_submitted_history (env : Env) (done : list SubMove)
    (self self1 : PowerCore) (h h1 : list event) :
  all_submitted env done self h self1 h1 ->
  exists tail, h1 = h ++ tail /\ moves_in tail = map target done.
Proof.
  induction 1 as [self h | m ms self self1 self2 h h1 h2 Hm Hms IH].
  - exists []. split; [now rewrite app_nil_r | reflexivity].
  - destruct (submit_history env m _ _ _ _ _ Hm (or_introl eq_refl))
      as (t1 & E1 & M1).
    destruct IH as (t2 & E2 & M2).
    exists ((ToolheadMove (sm_end m) (sm_speed m) :: t1) ++ t2). split.
    + rewrite E2, E1. now rewrite <- app_assoc.
    + rewrite moves_in_app. simpl. rewrite M1, M2. reflexivity.
Qed.

Lemma execute_moves_cons (env : Env) (m : SubMove) (rest : list SubMove)
    (self : PowerCore) (h : list event) :
  execute_moves env (m :: rest) self h =
  match submit env m (set_processing_moves (Some true) self) h with
  | (self', h', Ok _) => execute_moves env rest self' h'
  | (self', h', Raise (CommandError e)) =>
      (self', h' ++ [RespondError [Txt e]; SendEvent "gcode:command_error"],
       Ok tt)
  | (self', h', Raise x) => (self', h', Raise x)
  end.
Proof.
  simpl. unfold bind at 1 2, setattr at 1, catch_command_error.
  destruct (submit env m (set_processing_moves (Some true) self) h)
    as [[self' h'] r].
  destruct r as [[] | e]; [reflexivity |].
  destruct e; try reflexivity.
  unfold bind, emit. rewrite <- app_assoc. reflexivity.
Qed.

Lemma execute_moves_after (env : Env) (done rest : list SubMove)
    (self self1 : PowerCore) (h h1 : list event) :
  all_submitted env done self h self1 h1 ->
  execute_moves env (done ++ rest) self h = execute_moves env rest self1 h1.
Proof.
  induction 1 as [self h | m ms self self1 self2 h h1 h2 Hm Hms IH];
    [reflexivity |].
  rewrite <- app_comm_cons, execute_moves_cons, Hm. exact IH.
Qed.

(** C8: when a sub-move raises a command error after the sub-moves before it
    went through, [execute_moves] answers with the text of the error, sends
    "gcode:command_error" and returns; the tool head has received the
    sub-moves up to the failing one, once each and in order, and none of
    those after it; what was in the history stays there. *)
Theorem execute_moves_aborts (env : Env) (done rest : list SubMove)
    (m : SubMove) (self self1 self2 : PowerCore) (h h1 h2 : list event)
    (msg : string) :
  all_submitted env done self h self1 h1 ->
  submit env m (set_processing_moves (Some true) self1) h1 =
    (self2, h2, Raise (CommandError msg)) ->
  let final :=
    h2 ++ [RespondError [Txt msg]; SendEvent "gcode:command_error"] in
  execute_moves env (done ++ m :: rest) self h = (self2, final, Ok tt) /\
  moves_in final = moves_in h ++ map target (done ++ [m]) /\
  exists tail, final = h ++ tail.
Proof.
  intros Hdone Hm final.
  destruct (all_submitted_history env done self self1 h h1 Hdone)
    as (t1 & E1 & M1).
  destruct (submit_history env m _ _ _ _ _ Hm
              (or_intror (ex_intro _ msg eq_refl))) as (t2 & E2 & M2).
  split; [| split].
  - rewrite (execute_moves_after env done (m :: rest) self self1 h h1 Hdone).
    rewrite execute_moves_cons, Hm. reflexivity.
  - unfold final. rewrite E2, E1.
    repeat rewrite moves_in_app. simpl. rewrite M1, M2.
    rewrite map_app, app_nil_r. simpl. now rewrite <- app_assoc.
  - unfold final. rewrite E2, E1. repeat rewrite <- app_assoc.
    eexists. reflexivity.
Qed.

(** Of five segments the third is refused: two went through, the third was
    tried, the last two never reach the tool head. *)
Lemma execute_moves_aborts_witness :
  exists self2 h2,
    execute_moves (bench (0, 0, 0, 0) (Some 2%nat))
      (firstn 2 five_segments ++
       mkSubMove [4; 0; 0; 0] [6; 0; 0; 0] 50 :: skipn 3 five_segments)
      connected_coarse [] =
      (self2,
       h2 ++ [RespondError [Txt "Move out of range"];
              SendEvent "gcode:command_error"], Ok tt) /\
    moves_in (h2 ++ [RespondError [Txt "Move out of range"];
                     SendEvent "gcode:command_error"]) =
      moves_in [] ++
      map target (firstn 2 five_segments ++
                  [mkSubMove [4; 0; 0; 0] [6; 0; 0; 0] 50]).
Proof.
  eexists. eexists.
  refine (let H := execute_moves_aborts (bench (0, 0, 0, 0) (Some 2%nat))
                     (firstn 2 five_segments) (skipn 3 five_segments)
                     (mkSubMove [4; 0; 0; 0] [6; 0; 0; 0] 50)
                     connected_coarse _ _ [] _ _ "Move out of range" _ _
          in conj (proj1 H) (proj1 (proj2 H))).
  - simpl. eapply submitted_cons; [cbv; reflexivity |].
    eapply submitted_cons; [cbv; reflexivity |]. apply submitted_nil.
  - cbv. reflexivity.
Defined.

(** ** The wire movers *)

Lemma set_speed_unattached (env : Env) (w : WireMover) (speed : Q)
    (self : PowerCore) (h : list event) :
  wm_toolhead w = None ->
  WireMover_set_speed env w speed self h = (self, h, Raise AttributeError).
Proof.
  intro H. unfold WireMover_set_speed. run_method. rewrite H. reflexivity.
Qed.

Lemma set_speed_attached (env : Env) (w : WireMover) (speed : Q)
    (self : PowerCore) (h : list event) (th : ToolHead) :
  wm_toolhead w = Some th ->
  WireMover_set_speed env w speed self h =
  (self, h ++ [SetPin (wm_pin w) (toolhead_get_last_move_time env h) speed],
   Ok tt).
Proof.
  intro H. unfold WireMover_set_speed. run_method. rewrite H. reflexivity.
Qed.

(** No operation assigns the two wire movers or the choice of the primary
    one. *)
Lemma run_op_wire_tools (env : Env) (o : op) (self : PowerCore)
    (h : list event) :
  sender_wire_tool (object_of (run_op env o self h)) = sender_wire_tool self /\
  receiver_wire_tool (object_of (run_op env o self h)) =
    receiver_wire_tool self /\
  sender_is_primary (object_of (run_op env o self h)) = sender_is_primary self.
Proof.
  destruct o as [ | now data | speed | target | enable | | now duty
                | MIN MAX | | d | KP KI KD | | | | newpos speed];
    try (unfold_methods; unfold object_of; run_method; branches; auto; fail).
  simpl.
  pose proof (move_frame env newpos speed self h) as H.
  split; [exact (f_equal sender_wire_tool H) |].
  split; [exact (f_equal receiver_wire_tool H) |].
  exact (f_equal sender_is_primary H).
Qed.

(** The wire movers were built before the object had a tool head, and have
    none ever after. *)
Lemma wire_tools_never_attached (env : Env) (c : Config) (now : Q)
    (ops : list op) :
  let self := fst (run_ops env ops (PowerCore_init c now) []) in
  wm_toolhead (sender_wire_tool self) = None /\
  wm_toolhead (receiver_wire_tool self) = None.
Proof.
  assert (G : forall self h,
             wm_toolhead (sender_wire_tool self) = None /\
             wm_toolhead (receiver_wire_tool self) = None ->
             wm_toolhead (sender_wire_tool (fst (run_ops env ops self h))) =
               None /\
             wm_toolhead (receiver_wire_tool (fst (run_ops env ops self h))) =
               None).
  { induction ops as [| o ops IH]; intros self h Hs; [exact Hs |].
    simpl. apply IH.
    destruct (run_op_wire_tools env o self h) as (E1 & E2 & _).
    rewrite E1, E2. exact Hs. }
  simpl. apply G. split; reflexivity.
Qed.

Arguments PID_update : simpl never.

(** What the tension loop does with a batch once the wire movers hold a tool
    head: the last sample goes to the controller and its output, scaled to
    0..255 and rounded, goes to the pin of the mover that is not primary. *)
Lemma wire_tension_callback_attached (env : Env) (self : PowerCore)
    (h : list event) (now sample o : Q) (data : list Q) (pid' : PID) :
  attached self ->
  wire_tension_loop_enabled self = true ->
  PID_update (wire_pid_controller self) sample now = (pid', Some o) ->
  wire_tension_callback env now (data ++ [sample]) self h =
  (set_wire_pid_controller pid' self,
   h ++ [SetPin
           (wm_pin (if sender_is_primary self
                    then receiver_wire_tool self
                    else sender_wire_tool self))
           (toolhead_get_last_move_time env h)
           (inject_Z (py_round (o * 255)))],
   Ok tt).
Proof.
  intros [Hs Hr] Hon Hpid. unfold wire_tension_callback. run_method.
  rewrite Hon, py_last_snoc. simpl. rewrite Hpid. simpl.
  destruct (sender_is_primary self); unfold WireMover_set_speed; run_method.
  - rewrite Hr. reflexivity.
  - rewrite Hs. reflexivity.
Qed.

(** What it does on the object as [__init__] builds it: the controller is
    updated, then [set_speed] fails on the missing tool head and no pin is
    driven. *)
Lemma wire_tension_callback_unattached (env : Env) (c : Config)
    (t now sample o : Q) (ops : list op) (data : list Q) (pid' : PID) :
  let self := fst (run_ops env ops (PowerCore_init c t) []) in
  let h := snd (run_ops env ops (PowerCore_init c t) []) in
  wire_tension_loop_enabled self = true ->
  PID_update (wire_pid_controller self) sample now = (pid', Some o) ->
  wire_tension_callback env now (data ++ [sample]) self h =
  (set_wire_pid_controller pid' self, h, Raise AttributeError).
Proof.
  intros self h Hon Hpid.
  destruct (wire_tools_never_attached env c t ops) as [Hs Hr].
  fold self in Hs, Hr.
  unfold wire_tension_callback. run_method.
  rewrite Hon, py_last_snoc. simpl. rewrite Hpid. simpl.
  destruct (sender_is_primary self); unfold WireMover_set_speed; run_method.
  - rewrite Hr. reflexivity.
  - rewrite Hs. reflexivity.
Qed.

(** C7, on the default object, connected, sender primary: a batch whose last
    sample drives the controller output to 1 does not command the receiver
    to 255; the call ends in [AttributeError] and no pin is driven. *)
Theorem wire_tension_callback_drives_nothing :
  snd (PID_update (wire_pid_controller connected_default) (- (20)) 1) =
    Some 1 /\
  py_round (1 * 255) = 255%Z /\
  result_of (wire_tension_callback (bench (0, 0, 0, 0) None) 1
               [3; - (20)] connected_default []) = Raise AttributeError /\
  pins_in (history_of (wire_tension_callback (bench (0, 0, 0, 0) None) 1
                         [3; - (20)] connected_default [])) = [].
Proof. repeat split. Qed.

Lemma pins_in_app (a b : list event) :
  pins_in (a ++ b) = pins_in a ++ pins_in b.
Proof.
  induction a as [| e a IH]; [reflexivity |].
  destruct e; simpl; rewrite IH; reflexivity.
Qed.

(** SET_WIRE_FEED once the wire movers hold a tool head: both pins with the
    loop disabled, the pin of the primary mover with the loop enabled. *)
Lemma cmd_SET_WIRE_FEED_attached (env : Env) (self : PowerCore)
    (h : list event) (speed : Q) :
  attached self ->
  pins_in (history_of (cmd_SET_WIRE_FEED env speed self h)) =
  pins_in h ++
  (if wire_tension_loop_enabled self
   then [(wm_pin (if sender_is_primary self
                  then sender_wire_tool self
                  else receiver_wire_tool self), speed)]
   else [(wm_pin (sender_wire_tool self), speed);
         (wm_pin (receiver_wire_tool self), speed)]) /\
  result_of (cmd_SET_WIRE_FEED env speed self h) = Ok tt.
Proof.
  intros [Hs Hr]. unfold cmd_SET_WIRE_FEED, WireMover_set_speed, history_of,
    result_of.
  run_method.
  destruct (wire_tension_loop_enabled self); simpl.
  - destruct (sender_is_primary self); simpl;
      [rewrite Hs | rewrite Hr]; simpl;
      repeat rewrite pins_in_app; simpl; rewrite app_nil_r; auto.
  - rewrite Hs. simpl. rewrite Hr. simpl.
    repeat rewrite pins_in_app. simpl. rewrite app_nil_r.
    rewrite <- app_assoc. auto.
Qed.

(** SET_WIRE_FEED on the object as [__init__] builds it, whatever ran since:
    the first [set_speed] fails on the missing tool head, no pin is driven
    and no answer is given. *)
Lemma cmd_SET_WIRE_FEED_unattached (env : Env) (c : Config) (t speed : Q)
    (ops : list op) :
  let self := fst (run_ops env ops (PowerCore_init c t) []) in
  let h := snd (run_ops env ops (PowerCore_init c t) []) in
  cmd_SET_WIRE_FEED env speed self h = (self, h, Raise AttributeError).
Proof.
  intros self h.
  destruct (wire_tools_never_attached env c t ops) as [Hs Hr].
  fold self in Hs, Hr.
  unfold cmd_SET_WIRE_FEED, WireMover_set_speed. run_method.
  destruct (wire_tension_loop_enabled self); simpl.
  - destruct (sender_is_primary self); simpl;
      [rewrite Hs | rewrite Hr]; reflexivity.
  - rewrite Hs. reflexivity.
Qed.

(** C9, on the default object, connected: after ENABLE_WIRE_TENSION_LOOP
    ENABLE=0, SET_WIRE_FEED with speed 40 sets neither actuator to 40, and
    with the loop enabled it does not set the primary one; both calls end in
    [AttributeError] with no pin driven. *)
Theorem set_wire_feed_drives_nothing :
  wire_tension_loop_enabled loop_disabled = false /\
  wire_tension_loop_enabled connected_default = true /\
  cmd_SET_WIRE_FEED (bench (0, 0, 0, 0) None) 40 loop_disabled [] =
    (loop_disabled, [], Raise AttributeError) /\
  cmd_SET_WIRE_FEED (bench (0, 0, 0, 0) None) 40 connected_default [] =
    (connected_default, [], Raise AttributeError).
Proof. repeat split. Qed.

(** ** The feed range over the life of the object *)

Lemma run_op_feed_range (env : Env) (o : op) (self : PowerCore)
    (h : list event) :
  min_feedrate self <= max_feedrate self ->
  min_feedrate (object_of (run_op env o self h)) <=
  max_feedrate (object_of (run_op env o self h)).
Proof.
  intro Hinv.
  destruct o as [ | now data | speed | target | enable | | now duty
                | MIN MAX | | d | KP KI KD | | | | newpos speed];
    try (unfold_methods; unfold object_of; run_method; branches; auto; fail).
  - exact (set_feedrates_ordered self h MIN MAX Hinv).
  - simpl.
    pose proof (move_frame env newpos speed self h) as H.
    assert (E1 : min_feedrate (object_of (move env newpos speed self h)) =
                 min_feedrate self) by exact (f_equal min_feedrate H).
    assert (E2 : max_feedrate (object_of (move env newpos speed self h)) =
                 max_feedrate self) by exact (f_equal max_feedrate H).
    rewrite E1, E2. exact Hinv.
Qed.

(** X10.
    From a valid configuration on, the stored feed range is ordered
    whatever operations run. *)
Lemma feed_range_always_ordered (env : Env) (c : Config) (now : Q)
    (ops : list op) :
  config_valid c ->
  let self := fst (run_ops env ops (PowerCore_init c now) []) in
  min_feedrate self <= max_feedrate self.
Proof.
  intro Hc.
  assert (G : forall self h,
             min_feedrate self <= max_feedrate self ->
             min_feedrate (fst (run_ops env ops self h)) <=
             max_feedrate (fst (run_ops env ops self h))).
  { induction ops as [| o ops IH]; intros self h Hs; [exact Hs |].
    simpl. apply IH. now apply run_op_feed_range. }
  simpl. apply G. now apply init_feed_range.
Qed.

(** * Further properties of the module *)

(** ** Rounding *)

Lemma py_round_close (y : Q) :
  y - (1 # 2) <= inject_Z (py_round y) /\ inject_Z (py_round y) <= y + (1 # 2).
Proof.
  pose proof (Qfloor_le y) as Hlo.
  pose proof (Qlt_floor y) as Hhi.
  rewrite inject_Z_plus in Hhi. change (inject_Z 1) with 1 in Hhi.
  unfold py_round.
  destruct (Qcompare_spec (y - inject_Z (Qfloor y)) (1 # 2)) as [E | E | E].
  - destruct (Z.even (Qfloor y));
      [| rewrite inject_Z_plus; change (inject_Z 1) with 1]; lra.
  - lra.
  - rewrite inject_Z_plus. change (inject_Z 1) with 1. lra.
Qed.

Lemma py_round3_close (x : Q) :
  x - (1 # 2000) <= py_round3 x /\ py_round3 x <= x + (1 # 2000).
Proof.
  destruct (py_round_close (x * 1000)) as [Hlo Hhi].
  assert (E : py_round3 x == inject_Z (py_round (x * 1000)) * (1 # 1000)).
  { unfold py_round3, Qeq. simpl. lia. }
  set (z := inject_Z (py_round (x * 1000))) in *.
  rewrite E. split; lra.
Qed.

(** X17.
    GET_POWERCORE_DUTY_CYCLE answers with the measured duty cycle rounded
    to three decimals, at most 0.0005 away from the measurement, and changes
    nothing in the object. *)
Theorem duty_cycle_report (measured : Q) (self : PowerCore) (h : list event) :
  exists d,
    cmd_get_duty_cycle measured self h =
      (self, h ++ [RespondInfo [Txt "duty_cycle: "; Num d]], Ok tt) /\
    three_decimals d /\
    measured - (1 # 2000) <= d /\ d <= measured + (1 # 2000).
Proof.
  exists (py_round3 measured). split; [reflexivity |].
  split; [apply py_round3_three_decimals | apply py_round3_close].
Qed.

(** ** More on the segment generator *)

Lemma advance_from_close (start : position) (len : Q) (vec : list Q) :
  forall i stop,
    advance_from i start len vec = Ok stop ->
    forall j v,
      nth_error vec j = Some v ->
      exists c s,
        nth_error start (i + j) = Some c /\
        nth_error stop j = Some s /\
        c + len * v - (1 # 2000) <= s /\ s <= c + len * v + (1 # 2000).
Proof.
  induction vec as [| v0 vs IH]; intros i stop Hrun j v Hv.
  - destruct j; discriminate.
  - simpl in Hrun. unfold py_index in Hrun.
    destruct (nth_error start i) as [c0 |] eqn:Ec0; [| discriminate].
    simpl in Hrun.
    destruct (advance_from (S i) start len vs) as [rest |] eqn:Er;
      [| discriminate].
    simpl in Hrun. inversion Hrun; subst stop. clear Hrun.
    destruct j as [| j].
    + simpl in Hv. inversion Hv; subst v0.
      exists c0, (py_round3 (c0 + len * v)).
      rewrite Nat.add_0_r.
      split; [exact Ec0 |]. split; [reflexivity |].
      apply py_round3_close.
    + simpl in Hv.
      destruct (IH (S i) rest Er j v Hv) as (c & s & Hc & Hs & Hb).
      exists c, s.
      replace (i + S j)%nat with (S i + j)%nat by lia.
      split; [exact Hc |]. split; [exact Hs | exact Hb].
Qed.

(** X2.
    Every sub-move but the last goes from its start by one segment length
    along the four direction ratios of the move: its end has four
    coordinates, each off the coordinate of the start moved by the segment
    length times the ratio by no more than 0.0005 for its rounding. *)
Theorem split_move_steps (env : Env) (self self' : PowerCore)
    (h h' : list event) (newpos : position) (speed : Q)
    (segs : list SubMove) :
  split_move env newpos speed self h = (self', h', Ok segs) ->
  List.length (direction env h newpos) = 4%nat /\
  Forall
    (steps_by (segment_length env h newpos (move_split_dist self))
       (direction env h newpos))
    (removelast segs).
Proof.
  intro Hrun.
  split.
  - exact (proj2 (proj2 (proj2
             (Move_new_fields (toolhead_geometry env) (position_of env h)
                newpos)))).
  - apply (split_move_Forall _ env self self' h h' newpos speed segs Hrun).
    intros start stop Hadv. unfold steps_by. simpl.
    split; [exact (proj2 (advance_exact _ _ _ _ Hadv)) |].
    intros j v Hv.
    exact (advance_from_close _ _ _ 0 stop Hadv j v Hv).
Qed.

(** The move of 10 mm in five segments: the first four go 2 mm along X. *)
Lemma split_move_steps_witness :
  List.length (direction (bench (0, 0, 0, 0) None) [] [10; 0; 0; 0]) =
    4%nat /\
  Forall
    (steps_by
       (segment_length (bench (0, 0, 0, 0) None) [] [10; 0; 0; 0]
          (move_split_dist connected_coarse))
       (direction (bench (0, 0, 0, 0) None) [] [10; 0; 0; 0]))
    (removelast
       [mkSubMove [0; 0; 0; 0] [2000 # 1000; 0 # 1000; 0 # 1000; 0 # 1000] 50;
        mkSubMove [2000 # 1000; 0 # 1000; 0 # 1000; 0 # 1000]
          [4000 # 1000; 0 # 1000; 0 # 1000; 0 # 1000] 50;
        mkSubMove [4000 # 1000; 0 # 1000; 0 # 1000; 0 # 1000]
          [6000 # 1000; 0 # 1000; 0 # 1000; 0 # 1000] 50;
        mkSubMove [6000 # 1000; 0 # 1000; 0 # 1000; 0 # 1000]
          [8000 # 1000; 0 # 1000; 0 # 1000; 0 # 1000] 50;
        mkSubMove [8000 # 1000; 0 # 1000; 0 # 1000; 0 # 1000]
          [10; 0; 0; 0] 50]).
Proof.
  apply (split_move_steps (bench (0, 0, 0, 0) None) connected_coarse
           connected_coarse [] [] [10; 0; 0; 0] 50).
  reflexivity.
Defined.

Lemma py_ceil_one (d l : Q) : 0 < d -> d <= l -> py_ceil (d / l) = 1%Z.
Proof.
  intros Hd Hdl.
  assert (Hl : 0 < l) by (eapply Qlt_le_trans; eauto).
  pose proof (py_ceil_positive d l Hd Hl) as Hlo.
  assert (Hq : d / l <= inject_Z 1).
  { apply Qle_shift_div_r; [exact Hl |]. change (inject_Z 1) with 1. lra. }
  pose proof (Qceiling_resp_le _ _ Hq) as Hhi.
  rewrite Qceiling_Z in Hhi. unfold py_ceil in *. lia.
Qed.

(** X1.
    A move no longer than the segment length is not cut: [split_move]
    returns the one sub-move from the position of the tool head to the
    requested end position, unrounded, at the commanded speed. *)
Theorem split_move_short (env : Env) (self : PowerCore) (h : list event)
    (th : ToolHead) (newpos : position) (speed : Q) :
  toolhead self = Some th ->
  0 < displacement env h newpos ->
  displacement env h newpos <= move_split_dist self ->
  split_move env newpos speed self h =
  (self, h, Ok [mkSubMove (position_of env h) newpos speed]).
Proof.
  intros Hth Hd Hle.
  assert (Hdist : 0 < move_split_dist self) by (eapply Qlt_le_trans; eauto).
  rewrite (split_move_unfold env self h th newpos speed Hth).
  destruct (Move_new_fields (toolhead_geometry env) (position_of env h) newpos)
    as (Hs & He & Hmd & Hr).
  unfold displacement in Hd, Hle. rewrite <- Hmd in Hd, Hle.
  set (mv := Move_new (toolhead_geometry env) (position_of env h) newpos) in *.
  unfold split_move_of.
  rewrite py_truediv_ok by (intro E; rewrite E in Hdist; discriminate).
  simpl rbind. rewrite (py_ceil_one _ _ Hd Hle).
  rewrite py_truediv_ok by discriminate. simpl rbind.
  destruct (advance_from_ok (start_pos mv) (move_d mv / inject_Z 1)
              (axes_r mv) 0) as (stop & Ha & _).
  { simpl. rewrite Hs, Hr, position_of_length. lia. }
  unfold advance. rewrite Ha. simpl. rewrite Hs, He. reflexivity.
Qed.

(** A move of 1 mm at a segment length of 2. *)
Lemma split_move_short_witness :
  split_move (bench (0, 0, 0, 0) None) [1; 0; 0; 0] 50 connected_coarse [] =
  (connected_coarse, [],
   Ok [mkSubMove (position_of (bench (0, 0, 0, 0) None) []) [1; 0; 0; 0] 50]).
Proof.
  apply (split_move_short (bench (0, 0, 0, 0) None) connected_coarse []
           the_toolhead [1; 0; 0; 0] 50).
  - reflexivity.
  - reflexivity.
  - unfold Qle. simpl. lia.
Defined.

(** ** More on the execution of sub-moves *)

Lemma reports_in_app (a b : list event) :
  reports_in (a ++ b) = reports_in a ++ reports_in b.
Proof.
  induction a as [| e a IH]; [reflexivity |].
  destruct e; simpl; rewrite IH; reflexivity.
Qed.

(** Handing a sub-move to the tool head reports nothing to the operator. *)
Lemma submit_reports (env : Env) (m : SubMove) (self : PowerCore)
    (h : list event) :
  reports_in (history_of (submit env m self h)) = reports_in h.
Proof.
  unfold submit, history_of. run_method.
  repeat (simpl; try branch); simpl;
    repeat rewrite reports_in_app; simpl;
    repeat rewrite app_nil_r; reflexivity.
Qed.

Lemma all_submitted_reports (env : Env) (done : list SubMove)
    (self self1 : PowerCore) (h h1 : list event) :
  all_submitted env done self h self1 h1 -> reports_in h1 = reports_in h.
Proof.
  induction 1 as [self h | m ms self self1 self2 h h1 h2 Hm Hms IH];
    [reflexivity |].
  rewrite IH.
  pose proof (submit_reports env m (set_processing_moves (Some true) self) h)
    as Hr.
  rewrite Hm in Hr. exact Hr.
Qed.

(** A sub-move reaches the tool head at most once, however it ends. *)
Lemma submit_moves (env : Env) (m : SubMove) (self : PowerCore)
    (h : list event) :
  exists tried,
    moves_in (history_of (submit env m self h)) = moves_in h ++ tried /\
    (tried = [] \/ tried = [target m]).
Proof.
  unfold submit, history_of, target. run_method.
  repeat (simpl; try branch); simpl;
    repeat rewrite moves_in_app; simpl; repeat rewrite app_nil_r;
    first [ exists []; split; [now rewrite app_nil_r | now left]
          | eexists; split; [reflexivity | now right] ].
Qed.

(** X4.
    When every sub-move goes through, [execute_moves] hands them all to the
    tool head, in order and once each, reports no error and returns. *)
Theorem execute_moves_completes (env : Env) (moves : list SubMove)
    (self self1 : PowerCore) (h h1 : list event) :
  all_submitted env moves self h self1 h1 ->
  execute_moves env moves self h = (self1, h1, Ok tt) /\
  moves_in h1 = moves_in h ++ map target moves /\
  reports_in h1 = reports_in h.
Proof.
  intro Hall.
  split; [| split].
  - rewrite <- (app_nil_r moves).
    exact (execute_moves_after env moves [] self self1 h h1 Hall).
  - destruct (all_submitted_history env moves self self1 h h1 Hall)
      as (tail & E & Mv).
    rewrite E, moves_in_app, Mv. reflexivity.
  - exact (all_submitted_reports env moves self self1 h h1 Hall).
Qed.

(** Two segments on a tool head that accepts them. *)
Lemma execute_moves_completes_witness :
  exists self1 h1,
    execute_moves (bench (0, 0, 0, 0) None) (firstn 2 five_segments)
      connected_coarse [] = (self1, h1, Ok tt) /\
    moves_in h1 = moves_in [] ++ map target (firstn 2 five_segments) /\
    reports_in h1 = reports_in [].
Proof.
  eexists. eexists.
  apply (execute_moves_completes (bench (0, 0, 0, 0) None)
           (firstn 2 five_segments) connected_coarse _ [] _).
  simpl. eapply submitted_cons; [cbv; reflexivity |].
  eapply submitted_cons; [cbv; reflexivity |]. apply submitted_nil.
Defined.

(** X5.
    An exception that is not a command error is not caught: it leaves
    [execute_moves] as it was raised, nothing is reported, and the sub-moves
    after the one that raised are not handed over. *)
Theorem execute_moves_lets_other_errors_through (env : Env)
    (done rest : list SubMove) (m : SubMove)
    (self self1 self2 : PowerCore) (h h1 h2 : list event) (x : exn) :
  all_submitted env done self h self1 h1 ->
  submit env m (set_processing_moves (Some true) self1) h1 =
    (self2, h2, Raise x) ->
  (forall msg, x <> CommandError msg) ->
  execute_moves env (done ++ m :: rest) self h = (self2, h2, Raise x) /\
  reports_in h2 = reports_in h /\
  exists tried,
    moves_in h2 = moves_in h ++ map target done ++ tried /\
    (tried = [] \/ tried = [target m]).
Proof.
  intros Hall Hm Hx.
  split; [| split].
  - rewrite (execute_moves_after env done (m :: rest) self self1 h h1 Hall).
    rewrite execute_moves_cons, Hm.
    destruct x; try reflexivity. exfalso. exact (Hx msg eq_refl).
  - pose proof (submit_reports env m (set_processing_moves (Some true) self1)
                  h1) as Hr.
    rewrite Hm in Hr. unfold history_of in Hr. simpl in Hr. rewrite Hr.
    exact (all_submitted_reports env done self self1 h h1 Hall).
  - destruct (all_submitted_history env done self self1 h h1 Hall)
      as (tail & E & Mv).
    destruct (submit_moves env m (set_processing_moves (Some true) self1) h1)
      as (tried & Hmv & Hcase).
    rewrite Hm in Hmv. unfold history_of in Hmv. simpl in Hmv.
    exists tried. split; [| exact Hcase].
    rewrite Hmv, E, moves_in_app, Mv. now rewrite <- app_assoc.
Qed.

(** A tool head whose [move] fails with [AttributeError], as it does when
    the patched check finds no stored output: the first segment is tried,
    the error goes through, the other four are never tried. *)
Lemma execute_moves_lets_other_errors_through_witness :
  execute_moves (faulty AttributeError)
    ([] ++ mkSubMove [0; 0; 0; 0] [2; 0; 0; 0] 50 :: skipn 1 five_segments)
    connected_coarse [] =
    (set_processing_moves (Some true) connected_coarse,
     [ToolheadMove [2; 0; 0; 0] 50], Raise AttributeError) /\
  reports_in [ToolheadMove [2; 0; 0; 0] 50] = reports_in [].
Proof.
  refine (let H := execute_moves_lets_other_errors_through
                     (faulty AttributeError) [] (skipn 1 five_segments)
                     (mkSubMove [0; 0; 0; 0] [2; 0; 0; 0] 50)
                     connected_coarse connected_coarse
                     (set_processing_moves (Some true) connected_coarse)
                     [] [] [ToolheadMove [2; 0; 0; 0] 50] AttributeError
                     _ _ _
          in conj (proj1 H) (proj1 (proj2 H))).
  - apply submitted_nil.
  - reflexivity.
  - intros msg E. discriminate E.
Defined.

Lemma submit_accepted (env : Env) (m : SubMove) (self : PowerCore)
    (h : list event) (th : ToolHead) :
  accepting env -> toolhead self = Some th ->
  exists h', submit env m self h = (self, h', Ok tt).
Proof.
  intros (Hmove & Hreg & Hflush & Hpause) Hth.
  unfold submit. run_method. rewrite Hth. simpl.
  rewrite Hmove.
  destruct (Hreg (h ++ [ToolheadMove (sm_end m) (sm_speed m)])) as [r Er].
  rewrite Er. simpl.
  destruct (Hflush ((h ++ [ToolheadMove (sm_end m) (sm_speed m)]) ++
                    [RegisterLookaheadCallback])) as [f Ef].
  rewrite Ef. simpl.
  destruct (match f with Some t => Some t | None => r end) as [t |];
    [| eexists; reflexivity].
  destruct (Qeq_bool (t - move_overlap_time self) 0);
    [eexists; reflexivity |].
  rewrite Hpause. eexists. reflexivity.
Qed.

Lemma accepting_all_submitted (env : Env) (th : ToolHead) :
  accepting env ->
  forall moves self h,
    toolhead self = Some th ->
    exists self1 h1, all_submitted env moves self h self1 h1.
Proof.
  intros Hacc moves.
  induction moves as [| m moves IH]; intros self h Hth.
  - exists self, h. constructor.
  - destruct (submit_accepted env m (set_processing_moves (Some true) self) h
                th Hacc Hth) as [h' Hm].
    destruct (IH (set_processing_moves (Some true) self) h' Hth)
      as (self1 & h1 & Hall).
    exists self1, h1. econstructor; eassumption.
Qed.

(** X3.
    With scaling enabled, on a tool head that accepts every move, a move of
    positive displacement reaches the tool head as [ceil(d / L)] moves at
    the commanded speed, the last of them to the requested end position,
    and nothing is reported as an error. *)
Theorem move_scaled (env : Env) (self : PowerCore) (h : list event)
    (th : ToolHead) (newpos : position) (speed : Q) :
  toolhead self = Some th ->
  scaling_enabled self = true ->
  0 < move_split_dist self ->
  0 < displacement env h newpos ->
  accepting env ->
  exists self1 h1 sent,
    move env newpos speed self h = (self1, h1, Ok tt) /\
    moves_in h1 = moves_in h ++ sent /\
    Z.of_nat (List.length sent) =
      py_ceil (displacement env h newpos / move_split_dist self) /\
    last sent ([], 0) = (newpos, speed) /\
    Forall (fun call => snd call = speed) sent /\
    reports_in h1 = reports_in h.
Proof.
  intros Hth Hon Hdist Hd Hacc.
  destruct (Move_new_fields (toolhead_geometry env) (position_of env h) newpos)
    as (Hs & He & Hmd & Hr).
  destruct (split_move_of_ok
              (Move_new (toolhead_geometry env) (position_of env h) newpos)
              (move_split_dist self) speed)
    as (segs & lastm & Hrun & Hlen & _ & Hlast & Hend & Hsp & _).
  { rewrite Hmd. exact Hd. }
  { exact Hdist. }
  { rewrite Hs, Hr, position_of_length. lia. }
  destruct (accepting_all_submitted env th Hacc segs self h Hth)
    as (self1 & h1 & Hall).
  exists self1, h1, (map target segs).
  assert (Hmove : move env newpos speed self h = execute_moves env segs self h).
  { unfold move, bind at 1, getattr at 1. rewrite Hon.
    unfold bind at 1.
    rewrite (split_move_unfold env self h th newpos speed Hth), Hrun.
    reflexivity. }
  rewrite Hmove.
  rewrite <- (app_nil_r segs) at 1.
  rewrite (execute_moves_after env segs [] self self1 h h1 Hall).
  destruct (all_submitted_history env segs self self1 h h1 Hall)
    as (tail & E & Mv).
  pose proof (py_ceil_positive _ _ Hd Hdist) as Hn.
  split; [reflexivity |].
  split; [rewrite E, moves_in_app, Mv; reflexivity |].
  split.
  { rewrite length_map, Hlen. rewrite Hmd. unfold displacement in *. lia. }
  split.
  { rewrite He in Hend. clear - Hlast Hend Hsp.
    revert Hlast. induction segs as [| a l IH]; intro Hlast; [discriminate |].
    destruct l as [| b l'].
    - simpl in Hlast. inversion Hlast; subst. unfold target. simpl.
      inversion Hsp; subst. congruence.
    - change (last (map target (a :: b :: l')) ([], 0))
        with (last (map target (b :: l')) ([], 0)).
      apply IH; [now inversion Hsp | exact Hlast]. }
  split.
  { apply Forall_map. unfold target. simpl. exact Hsp. }
  exact (all_submitted_reports env segs self self1 h h1 Hall).
Qed.

Lemma bench_accepting (pos : Q * Q * Q * Q) : accepting (bench pos None).
Proof.
  unfold accepting, bench. simpl.
  repeat split; intros; try reflexivity; eexists; reflexivity.
Qed.

(** The end-to-end example: 10 mm along X at segment length 2 reaches the
    tool head as five moves. *)
Lemma move_scaled_witness :
  exists self1 h1 sent,
    move (bench (0, 0, 0, 0) None) [10; 0; 0; 0] 50 connected_coarse [] =
      (self1, h1, Ok tt) /\
    moves_in h1 = moves_in [] ++ sent /\
    Z.of_nat (List.length sent) =
      py_ceil (displacement (bench (0, 0, 0, 0) None) [] [10; 0; 0; 0] /
               move_split_dist connected_coarse) /\
    last sent ([], 0) = ([10; 0; 0; 0], 50) /\
    Forall (fun call => snd call = 50) sent /\
    reports_in h1 = reports_in [].
Proof.
  apply (move_scaled (bench (0, 0, 0, 0) None) connected_coarse []
           the_toolhead [10; 0; 0; 0] 50).
  - reflexivity.
  - reflexivity.
  - reflexivity.
  - reflexivity.
  - apply bench_accepting.
Defined.

(** ** The feed rate of a scaled move *)

Lemma feedrate_in_range (lo hi o : Q) :
  0 <= o -> o <= 1 -> lo <= hi ->
  lo / 60 <= (lo + o * (hi - lo)) / 60 /\
  (lo + o * (hi - lo)) / 60 <= hi / 60.
Proof.
  intros Hlo Hhi Hord.
  assert (H0 : 0 <= o * (hi - lo)).
  { apply Qmult_le_0_compat; [exact Hlo | lra]. }
  assert (H1 : o * (hi - lo) <= 1 * (hi - lo)).
  { apply Qmult_le_compat_r; [exact Hhi | lra]. }
  set (p := o * (hi - lo)) in *.
  split; apply Qle_shift_div_l; try reflexivity;
    unfold Qdiv; field_simplify; lra.
Qed.

(** X7.
    With an output between 0 and 1 stored and an ordered feed range,
    [scale_move] sets a speed between min_feedrate / 60 and
    max_feedrate / 60, with the adjustment acceleration, and leaves the
    object as it is. *)
Theorem scale_move_in_range (self : PowerCore) (h : list event) (o : Q) :
  output self = Some (PyFloat o) ->
  0 <= o -> o <= 1 ->
  min_feedrate self <= max_feedrate self ->
  exists feedrate,
    scale_move self h =
      (self, h ++ [MoveSetSpeed feedrate (adjustment_accel self)], Ok tt) /\
    min_feedrate self / 60 <= feedrate /\
    feedrate <= max_feedrate self / 60.
Proof.
  intros Hout Hlo Hhi Hord.
  exists ((min_feedrate self +
           o * (max_feedrate self - min_feedrate self)) / 60).
  split; [now apply scale_move_reads |].
  now apply feedrate_in_range.
Qed.

(** After a saturating sample the output is 1 and the speed is set to
    max_feedrate / 60 = 2 mm/s. *)
Lemma scale_move_in_range_witness :
  exists feedrate,
    scale_move (object_of (pwm_in_callback 1 (- (100)) connected_coarse []))
      [] =
      (object_of (pwm_in_callback 1 (- (100)) connected_coarse []),
       [] ++ [MoveSetSpeed feedrate
                (adjustment_accel
                   (object_of
                      (pwm_in_callback 1 (- (100)) connected_coarse [])))],
       Ok tt) /\
    min_feedrate
      (object_of (pwm_in_callback 1 (- (100)) connected_coarse [])) / 60 <=
      feedrate /\
    feedrate <=
      max_feedrate
        (object_of (pwm_in_callback 1 (- (100)) connected_coarse [])) / 60.
Proof.
  apply (scale_move_in_range
           (object_of (pwm_in_callback 1 (- (100)) connected_coarse []))
           [] 1).
  - reflexivity.
  - unfold Qle. simpl. lia.
  - unfold Qle. simpl. lia.
  - unfold Qle. simpl. lia.
Defined.

Lemma clamp_bounds (x lower upper : Q) :
  lower <= upper ->
  lower <= clamp x lower upper /\ clamp x lower upper <= upper.
Proof.
  intro H. unfold clamp.
  destruct (Qlt_bool x lower) eqn:E1; [split; [apply Qle_refl | exact H] |].
  apply Qlt_bool_false_iff in E1.
  destruct (Qlt_bool upper x) eqn:E2; [split; [exact H | apply Qle_refl] |].
  apply Qlt_bool_false_iff in E2. split; assumption.
Qed.

Lemma PID_update_output (p : PID) (sample now o : Q) :
  fst (output_limits p) <= snd (output_limits p) ->
  snd (PID_update p sample now) = Some o ->
  fst (output_limits p) <= o /\ o <= snd (output_limits p).
Proof.
  intros Hlim Ho. unfold PID_update in Ho.
  destruct (Qlt_bool (now - last_time p) (sample_time p)); [discriminate |].
  simpl in Ho. inversion Ho. now apply clamp_bounds.
Qed.

Lemma PID_update_keeps (p : PID) (sample now : Q) :
  output_limits (fst (PID_update p sample now)) = output_limits p /\
  setpoint (fst (PID_update p sample now)) = setpoint p.
Proof.
  unfold PID_update.
  destruct (Qlt_bool (now - last_time p) (sample_time p)); split; reflexivity.
Qed.

(** No operation changes the bounds of the feed rate controller, and its
    setpoint follows the target duty cycle. *)
Lemma run_op_feed_controller (env : Env) (o : op) (self : PowerCore)
    (h : list event) :
  output_limits (feedrate_pid_controller (object_of (run_op env o self h))) =
    output_limits (feedrate_pid_controller self) /\
  (synced self -> synced (object_of (run_op env o self h))).
Proof.
  unfold synced.
  destruct o as [ | now data | speed | target | enable | | now duty
                | MIN MAX | | d | KP KI KD | | | | newpos speed];
    try (unfold_methods; unfold object_of; run_method; branches; auto; fail).
  - unfold_methods; unfold object_of. run_method.
    destruct (scaling_enabled self); simpl; [| auto].
    destruct (PID_update_keeps (feedrate_pid_controller self) duty now)
      as [Hl Hs].
    destruct (PID_update (feedrate_pid_controller self) duty now)
      as [pid' out].
    simpl in *. split; [exact Hl | intro E; rewrite Hs; exact E].
  - simpl.
    pose proof (move_frame env newpos speed self h) as H.
    pose proof (f_equal feedrate_pid_controller H) as Hp.
    pose proof (f_equal target_duty_cycle H) as Ht.
    simpl in Hp, Ht. rewrite Hp, Ht. auto.
Qed.

(** A sample processed while the bounds are 0 and 1 stores an output
    between 0 and 1; every other operation keeps the stored output. *)
Lemma run_op_output_in_unit (env : Env) (o : op) (self : PowerCore)
    (h : list event) :
  output_limits (feedrate_pid_controller self) = (0, 1) ->
  output_in_unit (output self) ->
  output_in_unit (output (object_of (run_op env o self h))).
Proof.
  intros Hlim Hout.
  destruct o as [ | now data | speed | target | enable | | now duty
                | MIN MAX | | d | KP KI KD | | | | newpos speed];
    try (rewrite run_op_output; [exact Hout | exact I]).
  destruct (scaling_enabled self) eqn:Hon.
  - simpl. unfold pwm_in_callback, object_of. run_method. rewrite Hon. simpl.
    pose proof (PID_update_output (feedrate_pid_controller self) duty now)
      as Hb.
    destruct (PID_update (feedrate_pid_controller self) duty now)
      as [pid' out].
    simpl. destruct out as [x |]; simpl; [| exact I].
    rewrite Hlim in Hb. simpl in Hb.
    apply Hb; [unfold Qle; simpl; lia | reflexivity].
  - rewrite run_op_output; [exact Hout | exact Hon].
Qed.

(** X8.
    From a valid configuration on, whatever operations ran: a stored output
    lies between 0 and 1, and the speed that [scale_move] sets from it lies
    between min_feedrate / 60 and max_feedrate / 60. *)
Theorem feedrate_always_in_range (env : Env) (c : Config) (t : Q)
    (ops : list op) (o : Q) (k : list event) :
  config_valid c ->
  let self := fst (run_ops env ops (PowerCore_init c t) []) in
  output self = Some (PyFloat o) ->
  (0 <= o /\ o <= 1) /\
  exists feedrate,
    scale_move self k =
      (self, k ++ [MoveSetSpeed feedrate (adjustment_accel self)], Ok tt) /\
    min_feedrate self / 60 <= feedrate /\
    feedrate <= max_feedrate self / 60.
Proof.
  intro Hc.
  assert (G : forall s h,
             (output_limits (feedrate_pid_controller s) = (0, 1) /\
              output_in_unit (output s) /\
              min_feedrate s <= max_feedrate s) ->
             let s' := fst (run_ops env ops s h) in
             output_in_unit (output s') /\
             min_feedrate s' <= max_feedrate s').
  { induction ops as [| op1 ops IH]; intros s h (Hl & Hu & Hord).
    - simpl. auto.
    - simpl. apply IH.
      destruct (run_op_feed_controller env op1 s h) as [El _].
      split; [rewrite El; exact Hl |].
      split; [now apply run_op_output_in_unit | now apply run_op_feed_range]. }
  intros self Hout.
  destruct (G (PowerCore_init c t) []) as [Hu Hord].
  { split; [reflexivity |]. split; [exact I | now apply init_feed_range]. }
  fold self in Hu, Hord. rewrite Hout in Hu. simpl in Hu.
  destruct Hu as [Hlo Hhi].
  split; [split; assumption |].
  exists ((min_feedrate self +
           o * (max_feedrate self - min_feedrate self)) / 60).
  split; [now apply scale_move_reads |].
  now apply feedrate_in_range.
Qed.

Lemma coarse_config_valid : config_valid coarse_config.
Proof. unfold config_valid. simpl. repeat split; unfold Qle, Qlt; simpl; lia. Qed.

(** Connect, enable scaling, one saturating sample: the output is 1. *)
Lemma feedrate_always_in_range_witness :
  (0 <= 1 /\ 1 <= 1) /\
  exists feedrate,
    scale_move
      (fst (run_ops (bench (0, 0, 0, 0) None)
              [OpConnect; OpEnableScaling; OpPwmIn 1 (- (100))]
              (PowerCore_init coarse_config 0) [])) [] =
      (fst (run_ops (bench (0, 0, 0, 0) None)
              [OpConnect; OpEnableScaling; OpPwmIn 1 (- (100))]
              (PowerCore_init coarse_config 0) []),
       [] ++ [MoveSetSpeed feedrate
                (adjustment_accel
                   (fst (run_ops (bench (0, 0, 0, 0) None)
                           [OpConnect; OpEnableScaling; OpPwmIn 1 (- (100))]
                           (PowerCore_init coarse_config 0) [])))],
       Ok tt) /\
    min_feedrate
      (fst (run_ops (bench (0, 0, 0, 0) None)
              [OpConnect; OpEnableScaling; OpPwmIn 1 (- (100))]
              (PowerCore_init coarse_config 0) [])) / 60 <= feedrate /\
    feedrate <=
      max_feedrate
        (fst (run_ops (bench (0, 0, 0, 0) None)
                [OpConnect; OpEnableScaling; OpPwmIn 1 (- (100))]
                (PowerCore_init coarse_config 0) [])) / 60.
Proof.
  exact (feedrate_always_in_range (bench (0, 0, 0, 0) None) coarse_config 0
           [OpConnect; OpEnableScaling; OpPwmIn 1 (- (100))] 1 []
           coarse_config_valid eq_refl).
Defined.

(** X9.
    The target duty cycle and the setpoint of the feed rate controller are
    set together at construction and by SET_POWERCORE_TARGET_DUTY_CYCLE, and
    by nothing else: they agree whatever operations ran. *)
Theorem setpoint_follows_target (env : Env) (c : Config) (t : Q)
    (ops : list op) :
  synced (fst (run_ops env ops (PowerCore_init c t) [])).
Proof.
  assert (G : forall s h, synced s -> synced (fst (run_ops env ops s h))).
  { induction ops as [| op1 ops IH]; intros s h Hs; [exact Hs |].
    simpl. apply IH.
    now apply (proj2 (run_op_feed_controller env op1 s h)). }
  apply G. reflexivity.
Qed.

(** ** Commands without parameters *)

(** X11.
    SET_POWERCORE_PID, SET_POWERCORE_TARGET_DUTY_CYCLE and
    SET_POWERCORE_FEED_RANGE given no parameter fall back on the stored
    values: the object is left as it is, and the feed range is answered with
    an info, not an error. *)
Theorem commands_without_parameters (self : PowerCore) (h : list event) :
  synced self ->
  min_feedrate self <= max_feedrate self ->
  object_of (cmd_set_pid_params None None None self h) = self /\
  object_of (cmd_set_target_duty_cycle None self h) = self /\
  object_of (cmd_set_powercore_feedrates None None self h) = self /\
  reports_in (history_of (cmd_set_powercore_feedrates None None self h)) =
    reports_in h.
Proof.
  unfold synced. intros Hs Hord.
  assert (E : Qlt_bool (max_feedrate self) (min_feedrate self) = false)
    by now apply Qlt_bool_false_iff.
  unfold cmd_set_pid_params, cmd_set_target_duty_cycle,
    cmd_set_powercore_feedrates, object_of, history_of, get_float.
  run_method. rewrite E. simpl.
  destruct self as [th tdc lo hi acc fpid dist ov en wpid wen snd rcv prim
                      out pm].
  destruct fpid as [kp ki kd sp lim st int le lt lout].
  simpl in *. subst tdc.
  repeat split. rewrite reports_in_app. simpl. now rewrite app_nil_r.
Qed.

Lemma commands_without_parameters_witness :
  object_of (cmd_set_pid_params None None None connected_default []) =
    connected_default /\
  object_of (cmd_set_target_duty_cycle None connected_default []) =
    connected_default /\
  object_of (cmd_set_powercore_feedrates None None connected_default []) =
    connected_default /\
  reports_in
    (history_of (cmd_set_powercore_feedrates None None connected_default [])) =
    reports_in [].
Proof.
  apply (commands_without_parameters connected_default []).
  - reflexivity.
  - unfold Qle. simpl. lia.
Defined.

(** ** The wire tension loop, switched *)

(** X12.
    ENABLE_WIRE_TENSION_LOOP with ENABLE=0 keeps the controller as it is, and
    from then on a batch of samples, empty or not, changes nothing.  After
    ENABLE=1 an empty batch raises [IndexError] and changes nothing
    either. *)
Theorem wire_loop_switched (env : Env) (self : PowerCore) (h h' : list event)
    (now : Q) (data : list Q) :
  let off := object_of (cmd_ENABLE_WIRE_TENSION_LOOP 0 self h) in
  let on := object_of (cmd_ENABLE_WIRE_TENSION_LOOP 1 self h) in
  wire_pid_controller off = wire_pid_controller self /\
  wire_tension_callback env now data off h' = (off, h', Ok tt) /\
  wire_tension_callback env now [] on h' = (on, h', Raise IndexError).
Proof. repeat split. Qed.

(** ** The wire movers over the life of the object *)

(** X13.
    Whatever operations ran since construction, [set_speed] on either wire
    mover raises [AttributeError] before any pin is driven: the movers were
    given the tool head of the object when it still had none. *)
Theorem set_speed_always_raises (env : Env) (c : Config) (t speed : Q)
    (ops : list op) (h : list event) :
  let self := fst (run_ops env ops (PowerCore_init c t) []) in
  WireMover_set_speed env (sender_wire_tool self) speed self h =
    (self, h, Raise AttributeError) /\
  WireMover_set_speed env (receiver_wire_tool self) speed self h =
    (self, h, Raise AttributeError).
Proof.
  intro self.
  destruct (wire_tools_never_attached env c t ops) as [Hs Hr].
  split; now apply set_speed_unattached.
Qed.

(** ** What no operation changes *)

Lemma execute_moves_flag (env : Env) (moves : list SubMove) :
  forall self h,
    processing_moves (object_of (execute_moves env moves self h)) =
    match moves with
    | [] => processing_moves self
    | _ :: _ => Some true
    end.
Proof.
  induction moves as [| m moves IH]; intros self h; [reflexivity |].
  rewrite execute_moves_cons.
  pose proof (submit_object env m (set_processing_moves (Some true) self) h)
    as Hobj.
  destruct (submit env m (set_processing_moves (Some true) self) h)
    as [[self' h'] r].
  unfold object_of in Hobj. simpl in Hobj. subst self'.
  destruct r as [[] | e].
  - rewrite IH. destruct moves; reflexivity.
  - destruct e; reflexivity.
Qed.

(** [move] either runs [execute_moves] on some list of sub-moves, or leaves
    the object as it is. *)
Lemma move_cases (env : Env) (newpos : position) (speed : Q)
    (self : PowerCore) (h : list event) :
  (exists l, move env newpos speed self h = execute_moves env l self h) \/
  object_of (move env newpos speed self h) = self.
Proof.
  unfold move, split_move, get_position, object_of. run_method.
  destruct (scaling_enabled self); simpl.
  - destruct (toolhead self); simpl; [| now right].
    destruct (toolhead_get_position env h) as [[[x y] z] e]. simpl.
    destruct (split_move_of _ _ _) as [l |]; [| now right].
    left. exists l. reflexivity.
  - right. destruct (toolhead self); simpl; [| reflexivity].
    destruct (toolhead_move env h newpos speed); reflexivity.
Qed.

Lemma run_op_flag (env : Env) (o : op) (self : PowerCore) (h : list event) :
  processing_moves (object_of (run_op env o self h)) = processing_moves self \/
  processing_moves (object_of (run_op env o self h)) = Some true.
Proof.
  destruct o as [ | now data | speed | target | enable | | now duty
                | MIN MAX | | d | KP KI KD | | | | newpos speed];
    try (left; unfold_methods; unfold object_of; run_method; branches; fail).
  simpl. destruct (move_cases env newpos speed self h) as [[l E] | E].
  - rewrite E, execute_moves_flag. destruct l; [now left | now right].
  - rewrite E. now left.
Qed.

(** X14.
    [execute_moves] raises the flag [processing_moves] at the first sub-move
    and nothing lowers it again: after a list that is not empty the flag is
    set, however the list ended, and over the life of the object it is never
    [False]. *)
Theorem processing_flag_never_cleared (env : Env) :
  (forall m moves self h,
      processing_moves (object_of (execute_moves env (m :: moves) self h)) =
      Some true) /\
  (forall c t ops,
      processing_moves (fst (run_ops env ops (PowerCore_init c t) [])) <>
      Some false).
Proof.
  split.
  - intros m moves self h. exact (execute_moves_flag env (m :: moves) self h).
  - intros c t ops.
    assert (G : forall s h,
               processing_moves s <> Some false ->
               processing_moves (fst (run_ops env ops s h)) <> Some false).
    { induction ops as [| op1 ops IH]; intros s h Hs; [exact Hs |].
      simpl. apply IH.
      destruct (run_op_flag env op1 s h) as [E | E]; rewrite E;
        [exact Hs | discriminate]. }
    apply G. discriminate.
Qed.

Lemma run_op_constants (env : Env) (o : op) (self : PowerCore)
    (h : list event) :
  move_split_dist (object_of (run_op env o self h)) = move_split_dist self /\
  move_overlap_time (object_of (run_op env o self h)) =
    move_overlap_time self /\
  adjustment_accel (object_of (run_op env o self h)) = adjustment_accel self.
Proof.
  destruct o as [ | now data | speed | target | enable | | now duty
                | MIN MAX | | d | KP KI KD | | | | newpos speed];
    try (unfold_methods; unfold object_of; run_method; branches; auto; fail).
  simpl.
  pose proof (move_frame env newpos speed self h) as H.
  split; [exact (f_equal move_split_dist H) |].
  split; [exact (f_equal move_overlap_time H) |].
  exact (f_equal adjustment_accel H).
Qed.

(** X15.
    The segment length, the overlap time, the adjustment acceleration and
    the choice of the primary wire mover are read from the configuration
    and no operation assigns them: from a valid configuration on the
    segment length stays positive. *)
Theorem configured_values_stay (env : Env) (c : Config) (t : Q)
    (ops : list op) :
  config_valid c ->
  let self := fst (run_ops env ops (PowerCore_init c t) []) in
  move_split_dist self = cfg_move_split_dist c /\
  0 < move_split_dist self /\
  move_overlap_time self = cfg_move_overlap_time c /\
  adjustment_accel self = cfg_powercore_adjustment_accel c /\
  sender_is_primary self = cfg_sender_is_primary c.
Proof.
  intro Hc.
  assert (G : forall s h,
             move_split_dist (fst (run_ops env ops s h)) = move_split_dist s /\
             move_overlap_time (fst (run_ops env ops s h)) =
               move_overlap_time s /\
             adjustment_accel (fst (run_ops env ops s h)) =
               adjustment_accel s /\
             sender_is_primary (fst (run_ops env ops s h)) =
               sender_is_primary s).
  { induction ops as [| op1 ops IH]; intros s h; [simpl; auto |].
    simpl.
    destruct (IH (object_of (run_op env op1 s h))
                (history_of (run_op env op1 s h))) as (A & B & C & D).
    destruct (run_op_constants env op1 s h) as (A' & B' & C').
    destruct (run_op_wire_tools env op1 s h) as (_ & _ & D').
    rewrite A, B, C, D, A', B', C', D'. auto. }
  intro self. destruct (G (PowerCore_init c t) []) as (A & B & C & D).
  fold self in A, B, C, D.
  split; [exact A |]. split; [| auto].
  rewrite A. destruct Hc as (_ & _ & _ & _ & _ & H). exact H.
Qed.

Lemma configured_values_stay_witness :
  move_split_dist
    (fst (run_ops (bench (0, 0, 0, 0) None)
            [OpConnect; OpEnableScaling; OpMove [10; 0; 0; 0] 50]
            (PowerCore_init coarse_config 0) [])) =
    cfg_move_split_dist coarse_config /\
  0 < move_split_dist
        (fst (run_ops (bench (0, 0, 0, 0) None)
                [OpConnect; OpEnableScaling; OpMove [10; 0; 0; 0] 50]
                (PowerCore_init coarse_config 0) [])).
Proof.
  destruct (configured_values_stay (bench (0, 0, 0, 0) None) coarse_config 0
              [OpConnect; OpEnableScaling; OpMove [10; 0; 0; 0] 50]
              coarse_config_valid) as (A & B & _).
  split; [exact A | exact B].
Defined.

Lemma run_op_toolhead (env : Env) (o : op) (self : PowerCore)
    (h : list event) :
  toolhead self <> None -> toolhead (object_of (run_op env o self h)) <> None.
Proof.
  intro Hth.
  destruct o as [ | now data | speed | target | enable | | now duty
                | MIN MAX | | d | KP KI KD | | | | newpos speed];
    try (unfold_methods; unfold object_of; run_method; branches; auto;
         discriminate).
  simpl.
  pose proof (f_equal toolhead (move_frame env newpos speed self h)) as H.
  simpl in H. rewrite H. exact Hth.
Qed.

(** X16.
    Once the object has its tool head, no operation takes it away: [move],
    [get_position] and [execute_moves] find it whatever ran in between. *)
Theorem connection_is_kept (env : Env) (ops : list op) (self : PowerCore)
    (h : list event) :
  toolhead self <> None ->
  toolhead (fst (run_ops env ops self h)) <> None.
Proof.
  revert self h.
  induction ops as [| op1 ops IH]; intros self h Hth; [exact Hth |].
  simpl. apply IH. now apply run_op_toolhead.
Qed.

Lemma connection_is_kept_witness :
  toolhead
    (fst (run_ops (bench (0, 0, 0, 0) None)
            [OpDisableScaling; OpMove [10; 0; 0; 0] 50; OpSetWireFeed 40]
            connected_default [])) <> None.
Proof.
  apply (connection_is_kept (bench (0, 0, 0, 0) None)
           [OpDisableScaling; OpMove [10; 0; 0; 0] 50; OpSetWireFeed 40]
           connected_default []).
  discriminate.
Defined.

(** The default configuration keeps the feed range ordered through a
    rejected and an accepted SET_POWERCORE_FEED_RANGE. *)
Lemma feed_range_always_ordered_witness :
  min_feedrate
    (fst (run_ops (bench (0, 0, 0, 0) None)
            [OpSetFeedrates (Some 200) None; OpSetFeedrates (Some 10) (Some 20)]
            (PowerCore_init coarse_config 0) [])) <=
  max_feedrate
    (fst (run_ops (bench (0, 0, 0, 0) None)
            [OpSetFeedrates (Some 200) None; OpSetFeedrates (Some 10) (Some 20)]
            (PowerCore_init coarse_config 0) [])).
Proof.
  exact (feed_range_always_ordered (bench (0, 0, 0, 0) None) coarse_config 0
           [OpSetFeedrates (Some 200) None; OpSetFeedrates (Some 10) (Some 20)]
           coarse_config_valid).
Defined.

(** ** Pacing *)

Lemma pauses_in_app (a b : list event) :
  pauses_in (a ++ b) = pauses_in a ++ pauses_in b.
Proof.
  induction a as [| e a IH]; [reflexivity |].
  destruct e; simpl; rewrite IH; reflexivity.
Qed.

Lemma submit_pauses (env : Env) (m : SubMove) (self : PowerCore)
    (h : list event) :
  exists added,
    pauses_in (history_of (submit env m self h)) = pauses_in h ++ added /\
    Forall (fun w => ~ w == 0) added /\
    (List.length added <= 1)%nat.
Proof.
  unfold submit, history_of. run_method.
  repeat (simpl; try branch); simpl;
    repeat rewrite pauses_in_app; simpl; repeat rewrite app_nil_r;
    try (exists []; split; [now rewrite app_nil_r |];
         split; [constructor | simpl; lia]);
    (eexists; split; [reflexivity |];
     split; [| simpl; lia]; constructor; [| constructor];
     intro E; apply Qeq_bool_iff in E; congruence).
Qed.

(** X6.
    [execute_moves] pauses at most once per sub-move and never until time
    0: a wake time of 0 counts as no wake time. *)
Theorem execute_moves_pauses (env : Env) (moves : list SubMove) :
  forall self h,
  exists added,
    pauses_in (history_of (execute_moves env moves self h)) =
      pauses_in h ++ added /\
    Forall (fun w => ~ w == 0) added /\
    (List.length added <= List.length moves)%nat.
Proof.
  induction moves as [| m moves IH]; intros self h.
  - exists []. simpl. split; [now rewrite app_nil_r |].
    split; [constructor | lia].
  - rewrite execute_moves_cons.
    destruct (submit_pauses env m (set_processing_moves (Some true) self) h)
      as (a1 & E1 & F1 & L1).
    destruct (submit env m (set_processing_moves (Some true) self) h)
      as [[self' h'] r].
    unfold history_of in E1. simpl in E1.
    destruct r as [[] | e].
    + destruct (IH self' h') as (a2 & E2 & F2 & L2).
      exists (a1 ++ a2). rewrite E2, E1, <- app_assoc.
      split; [reflexivity |].
      split; [now apply Forall_app |].
      rewrite length_app. simpl. lia.
    + exists a1.
      split; [| split; [exact F1 | simpl; lia]].
      destruct e; unfold history_of; simpl; try exact E1.
      rewrite pauses_in_app. simpl. rewrite app_nil_r. exact E1.
Qed.
